(** * Pod-modifier admission webhook: the mutation pipeline of [cmd/webhook.go]

    The development embeds [mutationRequired], [createPatch], [mutate] and
    the envelope part of [serve] as Rocq functions and proves the properties
    of the mutation decision and of the admission response.

    Go values are modelled as follows.
    - [string] and [[]byte] are both byte sequences; both are [string] here
      (the conversion [[]byte(s)] is the identity on the content).  A nil and
      an empty byte slice are both of length 0 and both dropped by
      [omitempty]; both are the empty string.
    - A pointer that may be nil is an [option].
    - A Go map is a [gmap]; a slice is a [list]; an indexed store
      [s[i].f = v] is a list insert at [i].
    - An [error] is observed only through [err != nil] and [err.Error()].
    - A composite literal is a record with the fields that the literal
      leaves out at their zero value.
    - A run-time panic is the [Panicked] outcome.
    - [glog] calls write a log and return nothing; they are left out. *)

From Stdlib Require Import String Ascii List Bool Arith Lia.
From Stdlib Require Import OrdersEx Sorted DecimalString.
From stdpp Require Import base option list strings gmap.

Set Warnings "-register-all".
Open Scope string_scope.
Open Scope list_scope.

(** ** Go run-time values *)

(** [[]byte]: a byte sequence, like [string]. *)
Abbreviation bytes := string (only parsing).

(** The [error] interface: a non-nil error value with its [Error()] text. *)
Record error := mkError { Error : string }.

Inductive outcome (A : Type) : Type :=
| Returned (a : A)
| Panicked (reason : string).
Arguments Returned {A} a.
Arguments Panicked {A} reason.

Definition nil_dereference : string :=
  "runtime error: invalid memory address or nil pointer dereference".

(** ** Decoded JSON documents ([interface{}] values of encoding/json) *)

Inductive json : Type :=
| JNull
| JBool (b : bool)
| JNum (literal : string)
| JStr (s : string)
| JArr (elems : list json)
| JObj (fields : list (string * json)).

(** ** k8s.io/apimachinery/pkg/apis/meta/v1 *)

Module ObjectMeta.
Record t := mk {
  Name : string;
  Namespace : string;
  Annotations : gmap string string
}.
Definition zero : t := mk "" "" ∅.
End ObjectMeta.

Module Status.
Record t := mk { Message : string }.
End Status.

Definition NamespaceSystem : string := "kube-system".
Definition NamespacePublic : string := "kube-public".

(** ** k8s.io/api/core/v1

    Only the fields that the webhook reads or writes are kept, with [Image]
    standing for the container fields that the webhook never touches. *)

Module ResourceRequirements.
Record t := mk {
  Limits : gmap string string;
  Requests : gmap string string
}.
Definition zero : t := mk ∅ ∅.
End ResourceRequirements.

Module Container.
Record t := mk {
  Name : string;
  Image : string;
  Resources : ResourceRequirements.t
}.
(** [c.Resources = r] on a container value. *)
Definition set_Resources (c : t) (r : ResourceRequirements.t) : t :=
  mk (Name c) (Image c) r.
End Container.

Module PodSpec.
Record t := mk { Containers : list Container.t }.
Definition zero : t := mk [].
End PodSpec.

Module Pod.
Record t := mk {
  ObjectMeta : ObjectMeta.t;
  Spec : PodSpec.t
}.
Definition zero : t := mk ObjectMeta.zero PodSpec.zero.
(** Promoted fields of the embedded [ObjectMeta]. *)
Definition Name (p : t) : string := ObjectMeta.Name (ObjectMeta p).
Definition Namespace (p : t) : string := ObjectMeta.Namespace (ObjectMeta p).
Definition GetAnnotations (p : t) : gmap string string :=
  ObjectMeta.Annotations (ObjectMeta p).
(** [pod.Spec.Containers = cs] *)
Definition set_Containers (p : t) (cs : list Container.t) : t :=
  mk (ObjectMeta p) (PodSpec.mk cs).
(** Values are immutable here, so a deep copy is the value itself. *)
Definition DeepCopy (p : t) : t := p.
End Pod.

(** ** k8s.io/api/admission/v1 *)

Definition PatchType := string.
Definition PatchTypeJSONPatch : PatchType := "JSONPatch".

Module RawExtension.
Record t := mk { Raw : bytes }.
End RawExtension.

Module AdmissionRequest.
Record t := mk {
  UID : string;
  Kind : string;
  Namespace : string;
  Name : string;
  Operation : string;
  Object : RawExtension.t
}.
End AdmissionRequest.

Module AdmissionResponse.
Record t := mk {
  UID : string;
  Allowed : bool;
  Result : option Status.t;
  Patch : bytes;
  PatchType : option PatchType
}.
(** [r.UID = uid] *)
Definition set_UID (r : t) (uid : string) : t :=
  {| UID := uid; Allowed := Allowed r; Result := Result r;
     Patch := Patch r; PatchType := PatchType r |}.
End AdmissionResponse.

Module AdmissionReview.
Record t := mk {
  Request : option AdmissionRequest.t;
  Response : option AdmissionResponse.t
}.
Definition zero : t := mk None None.
End AdmissionReview.

(** ** main.go *)

Definition defaultAnnotation : string := "pod-modifier.solace.com/modify".

Record config := mkConfig { Pods : list Pod.t }.

(** ** github.com/mattbaird/jsonpatch: one operation of a patch *)

Record JsonPatchOperation := mkOperation {
  Operation : string;
  Path : string;
  Value : option json
}.

(** ** The library functions the webhook calls

    [encoding/json], [jsonpatch] and the apimachinery deserializer are not
    part of the repository.  The webhook is embedded over any
    implementation of them; [Decode] also yields the envelope as the
    decoder left it, because [serve] reads it after a failure. *)

Record Externals := mkExternals {
  json_Unmarshal_Pod : bytes -> Pod.t + error;
  json_Unmarshal_config : bytes -> config + error;
  json_Marshal_Pod : Pod.t -> bytes + error;
  jsonpatch_CreatePatch : bytes -> bytes -> list JsonPatchOperation + error;
  json_Marshal_patch : list JsonPatchOperation -> bytes + error;
  deserializer_Decode : bytes -> AdmissionReview.t * option error
}.

(** ** cmd/webhook.go *)

Definition ignoredNamespaces : list string :=
  [NamespaceSystem; NamespacePublic].

(** Check whether the target resource needs to be mutated. *)
Fixpoint mutationRequired (ignoredList : list string) (metadata : ObjectMeta.t)
  : bool :=
  match ignoredList with
  | [] => true
  | namespace :: rest =>
      if String.eqb (ObjectMeta.Namespace metadata) namespace then false
      else mutationRequired rest metadata
  end.

(** The loop [for _, cpod = range c.Pods] of [createPatch]: the state is the
    variable [cpod] (assigned at every iteration) and the flag [found]. *)
Fixpoint range_Pods (name : string) (pods : list Pod.t) (cpod : Pod.t)
  : Pod.t * bool :=
  match pods with
  | [] => (cpod, false)
  | p :: rest =>
      if String.eqb name (Pod.Name p) then (p, true)
      else range_Pods name rest p
  end.

(** The inner loop [for ii, initializedContainer := range
    initializedPod.Spec.Containers]: [n] iterations are left, [ii] is the
    index, the state is the container slice of the working copy and
    [found]. *)
Fixpoint range_initialized (configContainer : Container.t) (n ii : nat)
    (st : list Container.t * bool) : list Container.t * bool :=
  match n with
  | 0 => st
  | S n' =>
      let st' :=
        match st.1 !! ii with
        | Some initializedContainer =>
            if String.eqb (Container.Name configContainer)
                          (Container.Name initializedContainer)
            then (<[ii := Container.set_Resources initializedContainer
                            (Container.Resources configContainer)]> st.1,
                  true)
            else st
        | None => st
        end in
      range_initialized configContainer n' (S ii) st'
  end.

(** The outer loop [for _, configContainer := range cpod.Spec.Containers]. *)
Fixpoint range_config (configContainers : list Container.t)
    (st : list Container.t * bool) : list Container.t * bool :=
  match configContainers with
  | [] => st
  | configContainer :: rest =>
      range_config rest
        (range_initialized configContainer (length st.1) 0 st)
  end.

Section Webhook.
Variable E : Externals.
(** The package variable [annotation], set from the command line. *)
Variable annotation : string.

(** [createPatch], lines 155-178: both pods are marshalled, diffed, and
    the patch is marshalled. *)
Definition encode_patch (pod initializedPod : Pod.t)
  : bytes * option error :=
  match json_Marshal_Pod E pod with
  | inr err => ("", Some err)
  | inl oldData =>
  match json_Marshal_Pod E initializedPod with
  | inr err => ("", Some err)
  | inl newData =>
  match jsonpatch_CreatePatch E oldData newData with
  | inr err => ("", Some err)
  | inl patch =>
  match json_Marshal_patch E patch with
  | inr err => ("", Some err)
  | inl patchBytes => (patchBytes, None)
  end end end end.

(** [createPatch], lines 138-178: the resources of the matched entry
    [cpod] are written into the working copy [initializedPod]. *)
Definition override_resources (pod initializedPod cpod : Pod.t)
  : bytes * option error :=
  let '(containers, found) :=
    range_config (PodSpec.Containers (Pod.Spec cpod))
      (PodSpec.Containers (Pod.Spec initializedPod), false) in
  let initializedPod := Pod.set_Containers initializedPod containers in
  if negb found then ("", None) else encode_patch pod initializedPod.

Definition createPatch (pod : Pod.t) : bytes * option error :=
  let initializedPod := Pod.DeepCopy pod in
  let a := Pod.GetAnnotations pod in
  match a !! (annotation +:+ ".podDefinition") with
  | None => ("", None)
  | Some podDefinitionAnnotation =>
  match json_Unmarshal_config E podDefinitionAnnotation with
  | inr err => ("", Some err)
  | inl c =>
  let '(cpod, found) := range_Pods (Pod.Name pod) (Pods c) Pod.zero in
  if negb found then ("", None)
  else override_resources pod initializedPod cpod
  end end.

(** main mutation process *)
Definition mutate (ar : AdmissionReview.t) : outcome AdmissionResponse.t :=
  match AdmissionReview.Request ar with
  | None => Panicked nil_dereference
  | Some req =>
  match json_Unmarshal_Pod E
          (RawExtension.Raw (AdmissionRequest.Object req)) with
  | inr err =>
      Returned {| AdmissionResponse.UID := "";
                  AdmissionResponse.Allowed := false;
                  AdmissionResponse.Result :=
                    Some {| Status.Message := Error err |};
                  AdmissionResponse.Patch := "";
                  AdmissionResponse.PatchType := None |}
  | inl pod =>
  if negb (mutationRequired ignoredNamespaces (Pod.ObjectMeta pod)) then
    Returned {| AdmissionResponse.UID := "";
                AdmissionResponse.Allowed := true;
                AdmissionResponse.Result := None;
                AdmissionResponse.Patch := "";
                AdmissionResponse.PatchType := None |}
  else
  match createPatch pod with
  | (_, Some err) =>
      Returned {| AdmissionResponse.UID := "";
                  AdmissionResponse.Allowed := false;
                  AdmissionResponse.Result :=
                    Some {| Status.Message := Error err |};
                  AdmissionResponse.Patch := "";
                  AdmissionResponse.PatchType := None |}
  | (patchBytes, None) =>
      Returned {| AdmissionResponse.UID := "";
                  AdmissionResponse.Allowed := true;
                  AdmissionResponse.Result := None;
                  AdmissionResponse.Patch := patchBytes;
                  AdmissionResponse.PatchType := Some PatchTypeJSONPatch |}
  end end end.
End Webhook.

(** ** net/http: the part of a request that [serve] reads *)

Module Request.
Record t := mk {
  (** [None]: no body, or [ioutil.ReadAll] failed. *)
  Body : option bytes;
  Header : gmap string (list string)
}.
Definition Header_Get (r : t) (key : string) : string :=
  match Header r !! key with
  | Some (v :: _) => v
  | _ => ""
  end.
End Request.

Definition StatusBadRequest : nat := 400.
Definition StatusUnsupportedMediaType : nat := 415.

(** What [serve] hands to the response writer: an [http.Error], or the
    review that is marshalled and written. *)
Inductive reply : Type :=
| http_Error (message : string) (code : nat)
| Write (admissionReview : AdmissionReview.t).

Section Serve.
Variable E : Externals.
Variable annotation : string.

(** Serve method for webhook server, up to the construction of the
    response envelope.  Both branches that set [admissionResponse] yield
    a non-nil pointer, so the test [admissionResponse != nil] holds. *)
Definition serve (r : Request.t) : outcome reply :=
  let body := match Request.Body r with Some data => data | None => "" end in
  if Nat.eqb (String.length body) 0 then
    Returned (http_Error "empty body" StatusBadRequest)
  else
  let contentType := Request.Header_Get r "Content-Type" in
  if negb (String.eqb contentType "application/json") then
    Returned (http_Error "invalid Content-Type, expect `application/json`"
                StatusUnsupportedMediaType)
  else
  let '(ar, err) := deserializer_Decode E body in
  let admissionResponse :=
    match err with
    | Some err =>
        Returned {| AdmissionResponse.UID := "";
                    AdmissionResponse.Allowed := false;
                    AdmissionResponse.Result :=
                      Some {| Status.Message := Error err |};
                    AdmissionResponse.Patch := "";
                    AdmissionResponse.PatchType := None |}
    | None => mutate E annotation ar
    end in
  match admissionResponse with
  | Panicked reason => Panicked reason
  | Returned admissionResponse =>
      let response :=
        match AdmissionReview.Request ar with
        | Some req =>
            AdmissionResponse.set_UID admissionResponse
              (AdmissionRequest.UID req)
        | None => admissionResponse
        end in
      Returned (Write {| AdmissionReview.Request := None;
                         AdmissionReview.Response := Some response |})
  end.
End Serve.

(** ** Patch codec

    The webhook diffs the two Pods with the library function
    [jsonpatch.CreatePatch], and nothing in the repository applies a
    patch.  The codec of section 4.4 of the specification is modelled
    here: [diff] brings two documents to a canonical structural form
    (object keys strictly increasing), compares them and emits replace,
    add and remove operations with JSON-pointer-style paths in the order in
    which the comparison discovers the differences; subtrees that do not
    differ emit nothing.  [apply_patch] applies the operations in
    sequence, as JSON Patch does. *)

(** Modelled from the spec: the path of a PatchOperation (section 3), a
    JSON pointer, as the sequence of its reference tokens; the library
    type is not part of the repository. *)
Inductive step : Type :=
| Key (k : string)
| Idx (i : nat).

Definition path := list step.

(** Modelled from the spec: the PatchOperation of section 3, one of
    replace, add and remove, with a path and, but for remove, a value; the
    library type is not part of the repository. *)
Inductive op : Type :=
| Replace (p : path) (v : json)
| Add (p : path) (v : json)
| Remove (p : path).

(** The operation [o] of a member, seen from the enclosing document. *)
Definition under (s : step) (o : op) : op :=
  match o with
  | Replace p v => Replace (s :: p) v
  | Add p v => Add (s :: p) v
  | Remove p => Remove (s :: p)
  end.

Definition str_ltb (a b : string) : bool :=
  match String_as_OT.compare a b with Lt => true | _ => false end.

(** *** Objects as association lists *)

Fixpoint obj_lookup (k : string) (m : list (string * json)) : option json :=
  match m with
  | [] => None
  | (k', v) :: m' => if String.eqb k k' then Some v else obj_lookup k m'
  end.

(** The value of an existing member is replaced in place. *)
Fixpoint obj_replace (k : string) (v : json) (m : list (string * json))
  : list (string * json) :=
  match m with
  | [] => []
  | (k', v') :: m' =>
      if String.eqb k k' then (k, v) :: m' else (k', v') :: obj_replace k v m'
  end.

(** A member is added at its place in the key order (or replaced). *)
Fixpoint obj_insert (k : string) (v : json) (m : list (string * json))
  : list (string * json) :=
  match m with
  | [] => [(k, v)]
  | (k', v') :: m' =>
      match String_as_OT.compare k k' with
      | Lt => (k, v) :: m
      | Eq => (k, v) :: m'
      | Gt => (k', v') :: obj_insert k v m'
      end
  end.

Fixpoint obj_delete (k : string) (m : list (string * json))
  : list (string * json) :=
  match m with
  | [] => []
  | (k', v') :: m' =>
      if String.eqb k k' then m' else (k', v') :: obj_delete k m'
  end.

Fixpoint keys_increasing (ks : list string) : bool :=
  match ks with
  | [] => true
  | k :: rest =>
      match rest with
      | [] => true
      | k' :: _ => str_ltb k k' && keys_increasing rest
      end
  end.

(** Canonical structural form: the keys of every object strictly increase. *)
Fixpoint canonical (v : json) : bool :=
  match v with
  | JArr l => forallb canonical l
  | JObj m =>
      keys_increasing (map fst m) && forallb (fun kv => canonical kv.2) m
  | _ => true
  end.

(** The members [m] are put into [acc] one after the other; of two members
    of one name the later one stays. *)
Fixpoint canon_members (rec : json -> json) (acc m : list (string * json))
  : list (string * json) :=
  match m with
  | [] => acc
  | (k, x) :: m' => canon_members rec (obj_insert k (rec x) acc) m'
  end.

(** Modelled from the spec: the canonical structural form of section 4.4,
    to which the codec brings a document before it compares. *)
Fixpoint canon (v : json) : json :=
  match v with
  | JArr l => JArr (map canon l)
  | JObj m => JObj (canon_members canon [] m)
  | _ => v
  end.

(** *** Diff *)

(** Members of the original: compared with the member of the same key, or
    removed. *)
Fixpoint diff_fields (rec : json -> json -> list op)
    (mb m : list (string * json)) : list op :=
  match m with
  | [] => []
  | (k, av) :: m' =>
      match obj_lookup k mb with
      | Some bv => map (under (Key k)) (rec av bv)
      | None => [Remove [Key k]]
      end ++ diff_fields rec mb m'
  end.

(** Members that only the modified object has are added. *)
Fixpoint diff_added (ma mb : list (string * json)) : list op :=
  match mb with
  | [] => []
  | (k, bv) :: mb' =>
      match obj_lookup k ma with
      | Some _ => []
      | None => [Add [Key k] bv]
      end ++ diff_added ma mb'
  end.

(** Arrays of equal length are compared element by element. *)
Fixpoint diff_elems (rec : json -> json -> list op) (i : nat)
    (la lb : list json) : list op :=
  match la, lb with
  | av :: la', bv :: lb' =>
      map (under (Idx i)) (rec av bv) ++ diff_elems rec (S i) la' lb'
  | _, _ => []
  end.

(** Modelled from the spec: the structural comparison of section 4.4, on
    two documents in canonical form; the library function
    [jsonpatch.CreatePatch] is not part of the repository.  Values of
    different kinds, scalars that differ and arrays of different lengths
    are replaced. *)
Fixpoint diff_doc (a b : json) {struct a} : list op :=
  match a, b with
  | JObj ma, JObj mb => diff_fields diff_doc mb ma ++ diff_added ma mb
  | JArr la, JArr lb =>
      if Nat.eqb (length la) (length lb) then diff_elems diff_doc 0 la lb
      else [Replace [] b]
  | JNull, JNull => []
  | JBool x, JBool y => if Bool.eqb x y then [] else [Replace [] b]
  | JNum x, JNum y => if String.eqb x y then [] else [Replace [] b]
  | JStr x, JStr y => if String.eqb x y then [] else [Replace [] b]
  | _, _ => [Replace [] b]
  end.

(** Modelled from the spec: [diff(original, modified)] of section 4.4, for
    the library function [jsonpatch.CreatePatch], which is not part of the
    repository.  Both documents are brought to canonical form and
    compared. *)
Definition diff (original modified : json) : list op :=
  diff_doc (canon original) (canon modified).

(** Modelled from the spec: the deep equality of section 8.  Two documents
    are deep-equal when they have the same canonical form: the order of the
    members of an object does not count. *)
Definition deep_equal (a b : json) : Prop := canon a = canon b.

(** *** Application *)

Definition get_child (s : step) (v : json) : option json :=
  match s, v with
  | Key k, JObj m => obj_lookup k m
  | Idx i, JArr l => l !! i
  | _, _ => None
  end.

Definition set_child (s : step) (c : json) (v : json) : json :=
  match s, v with
  | Key k, JObj m => JObj (obj_replace k c m)
  | Idx i, JArr l => JArr (<[i := c]> l)
  | _, _ => v
  end.

(** [f] rewrites the member at [s], which has to exist. *)
Definition update_child (s : step) (f : json -> option json) (v : json)
  : option json :=
  match get_child s v with
  | Some c =>
      match f c with
      | Some c' => Some (set_child s c' v)
      | None => None
      end
  | None => None
  end.

Definition add_child (s : step) (c : json) (v : json) : option json :=
  match s, v with
  | Key k, JObj m => Some (JObj (obj_insert k c m))
  | Idx i, JArr l =>
      if Nat.leb i (length l) then Some (JArr (take i l ++ c :: drop i l))
      else None
  | _, _ => None
  end.

Definition remove_child (s : step) (v : json) : option json :=
  match s, v with
  | Key k, JObj m =>
      match obj_lookup k m with
      | Some _ => Some (JObj (obj_delete k m))
      | None => None
      end
  | Idx i, JArr l =>
      if Nat.ltb i (length l) then Some (JArr (take i l ++ drop (S i) l))
      else None
  | _, _ => None
  end.

Fixpoint apply_replace (p : path) (c : json) (v : json) : option json :=
  match p with
  | [] => Some c
  | s :: p' => update_child s (apply_replace p' c) v
  end.

Fixpoint apply_add (p : path) (c : json) (v : json) : option json :=
  match p with
  | [] => Some c
  | s :: p' =>
      match p' with
      | [] => add_child s c v
      | _ :: _ => update_child s (apply_add p' c) v
      end
  end.

Fixpoint apply_remove (p : path) (v : json) : option json :=
  match p with
  | [] => None
  | s :: p' =>
      match p' with
      | [] => remove_child s v
      | _ :: _ => update_child s (apply_remove p') v
      end
  end.

Definition apply_op (o : op) (v : json) : option json :=
  match o with
  | Replace p c => apply_replace p c v
  | Add p c => apply_add p c v
  | Remove p => apply_remove p v
  end.

(** Modelled from the spec: the application of a patch to a document
    (sections 3 and 8), operation after operation as JSON Patch defines
    it; nothing in the repository applies a patch.  [None] when an
    operation names a member that does not exist. *)
Fixpoint apply_patch (ops : list op) (v : json) : option json :=
  match ops with
  | [] => Some v
  | o :: ops' =>
      match apply_op o v with
      | Some v' => apply_patch ops' v'
      | None => None
      end
  end.

(** An add or a remove names a member, never the whole document. *)
Definition names_member (o : op) : bool :=
  match o with
  | Replace _ _ => true
  | Add p _ | Remove p => match p with [] => false | _ :: _ => true end
  end.

(** ** A reference implementation of the library functions

    The webhook is verified over every [Externals].  To run it on concrete
    requests this section supplies one implementation: a reader and a
    writer for JSON text, the decoding of documents into the structures of
    the data model (the annotation contract and the envelopes of sections
    4.2 and 6 of the specification), and the patch codec above.  It covers
    the JSON that the webhook exchanges and is simpler than the Go
    libraries in these respects: a string escape [\u....] is not read;
    member names are matched exactly; a quantity is kept as its text;
    every failure to decode the envelope leaves the envelope empty; error
    texts are its own. *)

Module JSON.

Definition quote : ascii := "034"%char.
Definition backslash : ascii := "092"%char.

Definition is_ws (a : ascii) : bool :=
  let n := nat_of_ascii a in
  Nat.eqb n 32 || Nat.eqb n 9 || Nat.eqb n 10 || Nat.eqb n 13.

Definition is_digit (a : ascii) : bool :=
  let n := nat_of_ascii a in Nat.leb 48 n && Nat.leb n 57.

Fixpoint skip_ws (s : string) : string :=
  match s with
  | String a s' => if is_ws a then skip_ws s' else s
  | EmptyString => s
  end.

Fixpoint take_digits (s : string) : string * string :=
  match s with
  | String a s' =>
      if is_digit a then
        let '(d, r) := take_digits s' in (String a d, r)
      else ("", s)
  | EmptyString => ("", s)
  end.

Definition unescape (a : ascii) : option ascii :=
  if Ascii.eqb a quote then Some quote
  else if Ascii.eqb a backslash then Some backslash
  else if Ascii.eqb a "/" then Some "/"%char
  else if Ascii.eqb a "n" then Some "010"%char
  else if Ascii.eqb a "t" then Some "009"%char
  else if Ascii.eqb a "r" then Some "013"%char
  else if Ascii.eqb a "b" then Some "008"%char
  else if Ascii.eqb a "f" then Some "012"%char
  else None.

(** The characters of a string literal, after its opening quote. *)
Fixpoint read_chars (s : string) : option (string * string) :=
  match s with
  | EmptyString => None
  | String a rest =>
      if Ascii.eqb a quote then Some ("", rest)
      else if Ascii.eqb a backslash then
        match rest with
        | String e rest' =>
            match unescape e, read_chars rest' with
            | Some c, Some (t, r) => Some (String c t, r)
            | _, _ => None
            end
        | EmptyString => None
        end
      else if Nat.ltb (nat_of_ascii a) 32 then None
      else
        match read_chars rest with
        | Some (t, r) => Some (String a t, r)
        | None => None
        end
  end.

(** A number literal: [-? int frac? exp?], kept as its text. *)
Definition read_number (s : string) : option (string * string) :=
  let '(sign, s1) :=
    match s with
    | String "-" r => ("-", r)
    | _ => ("", s)
    end in
  let '(int, s2) := take_digits s1 in
  match int with
  | EmptyString => None
  | String "0" (String _ _) => None
  | _ =>
      let frac :=
        match s2 with
        | String "." r =>
            let '(d, r') := take_digits r in
            match d with
            | EmptyString => None
            | _ => Some ("." +:+ d, r')
            end
        | _ => Some ("", s2)
        end in
      match frac with
      | None => None
      | Some (f, s3) =>
          let exp :=
            match s3 with
            | String e r =>
                if Ascii.eqb e "e" || Ascii.eqb e "E" then
                  let '(sg, r1) :=
                    match r with
                    | String "+" r' => ("+", r')
                    | String "-" r' => ("-", r')
                    | _ => ("", r)
                    end in
                  let '(d, r2) := take_digits r1 in
                  match d with
                  | EmptyString => None
                  | _ => Some (String e sg +:+ d, r2)
                  end
                else Some ("", s3)
            | EmptyString => Some ("", s3)
            end in
          match exp with
          | None => None
          | Some (x, s4) => Some (sign +:+ int +:+ f +:+ x, s4)
          end
      end
  end.

Definition expect (word : string) (v : json) (s : string)
  : option (json * string) :=
  if String.prefix word s
  then Some (v, String.substring (String.length word)
                  (String.length s - String.length word) s)
  else None.

(** The elements of an array, from its first element on. *)
Fixpoint read_elems (value : string -> option (json * string)) (n : nat)
    (s : string) : option (list json * string) :=
  match n with
  | 0 => None
  | S n' =>
      match value s with
      | None => None
      | Some (v, r) =>
          match skip_ws r with
          | String c r' =>
              if Ascii.eqb c "," then
                match read_elems value n' r' with
                | Some (vs, r'') => Some (v :: vs, r'')
                | None => None
                end
              else if Ascii.eqb c "]" then Some ([v], r')
              else None
          | EmptyString => None
          end
      end
  end.

(** The members of an object, from its first member on. *)
Fixpoint read_members (value : string -> option (json * string)) (n : nat)
    (s : string) : option (list (string * json) * string) :=
  match n with
  | 0 => None
  | S n' =>
      match skip_ws s with
      | String q r0 =>
          if negb (Ascii.eqb q quote) then None else
          match read_chars r0 with
          | None => None
          | Some (k, r1) =>
              match skip_ws r1 with
              | String c r2 =>
                  if negb (Ascii.eqb c ":") then None else
                  match value r2 with
                  | None => None
                  | Some (v, r3) =>
                      match skip_ws r3 with
                      | String c' r4 =>
                          if Ascii.eqb c' "," then
                            match read_members value n' r4 with
                            | Some (m, r5) => Some ((k, v) :: m, r5)
                            | None => None
                            end
                          else if Ascii.eqb c' "}" then Some ([(k, v)], r4)
                          else None
                      | EmptyString => None
                      end
                  end
              | EmptyString => None
              end
          end
      | EmptyString => None
      end
  end.

Fixpoint read_value (fuel : nat) (s : string) : option (json * string) :=
  match fuel with
  | 0 => None
  | S fuel' =>
      match skip_ws s with
      | EmptyString => None
      | String c rest as s' =>
          if Ascii.eqb c "{" then
            match skip_ws rest with
            | String "}" r => Some (JObj [], r)
            | r =>
                match read_members (read_value fuel') fuel' r with
                | Some (m, r') => Some (JObj m, r')
                | None => None
                end
            end
          else if Ascii.eqb c "[" then
            match skip_ws rest with
            | String "]" r => Some (JArr [], r)
            | r =>
                match read_elems (read_value fuel') fuel' r with
                | Some (l, r') => Some (JArr l, r')
                | None => None
                end
            end
          else if Ascii.eqb c quote then
            match read_chars rest with
            | Some (t, r) => Some (JStr t, r)
            | None => None
            end
          else if Ascii.eqb c "n" then expect "null" JNull s'
          else if Ascii.eqb c "t" then expect "true" (JBool true) s'
          else if Ascii.eqb c "f" then expect "false" (JBool false) s'
          else
            match read_number s' with
            | Some (n, r) => Some (JNum n, r)
            | None => None
            end
      end
  end.

(** A whole text is one value, with white space around it. *)
Definition parse (s : string) : option json :=
  match read_value (S (String.length s)) s with
  | Some (v, r) =>
      match skip_ws r with
      | EmptyString => Some v
      | String _ _ => None
      end
  | None => None
  end.

Fixpoint escape (s : string) : string :=
  match s with
  | EmptyString => ""
  | String a r =>
      (if Ascii.eqb a quote then String backslash (String quote "")
       else if Ascii.eqb a backslash
            then String backslash (String backslash "")
       else if Ascii.eqb a "010" then String backslash "n"
       else if Ascii.eqb a "009" then String backslash "t"
       else if Ascii.eqb a "013" then String backslash "r"
       else String a "") +:+ escape r
  end.

Definition print_string (s : string) : string :=
  String quote (escape s) +:+ String quote "".

Fixpoint print (v : json) : string :=
  match v with
  | JNull => "null"
  | JBool true => "true"
  | JBool false => "false"
  | JNum n => n
  | JStr s => print_string s
  | JArr l =>
      "[" +:+
      (fix elems (l : list json) : string :=
         match l with
         | [] => ""
         | x :: l' =>
             print x +:+
             match l' with [] => "" | _ :: _ => "," +:+ elems l' end
         end) l +:+ "]"
  | JObj m =>
      "{" +:+
      (fix members (m : list (string * json)) : string :=
         match m with
         | [] => ""
         | (k, x) :: m' =>
             print_string k +:+ ":" +:+ print x +:+
             match m' with [] => "" | _ :: _ => "," +:+ members m' end
         end) m +:+ "}"
  end.

End JSON.

Module Reference.

Definition bind {A B : Type} (x : A + error) (f : A -> B + error)
  : B + error :=
  match x with
  | inl a => f a
  | inr e => inr e
  end.

Notation "'let!' x ':=' c 'in' k" := (bind c (fun x => k))
  (at level 10, x name, c at level 100, k at level 200).

Definition syntax_error : error :=
  mkError "json: the input is not a JSON document".

Definition kind_of (v : json) : string :=
  match v with
  | JNull => "null"
  | JBool _ => "bool"
  | JNum _ => "number"
  | JStr _ => "string"
  | JArr _ => "array"
  | JObj _ => "object"
  end.

Definition type_error (v : json) (target : string) : error :=
  mkError ("json: cannot unmarshal " +:+ kind_of v
           +:+ " into Go value of type " +:+ target).

(** An absent member and [null] both leave the zero value. *)
Definition member (k : string) (m : list (string * json)) : json :=
  match obj_lookup k m with
  | Some v => v
  | None => JNull
  end.

Definition as_string (v : json) : string + error :=
  match v with
  | JStr s => inl s
  | JNull => inl ""
  | _ => inr (type_error v "string")
  end.

Definition as_quantity (v : json) : string + error :=
  match v with
  | JStr s | JNum s => inl s
  | JNull => inl "0"
  | _ => inr (type_error v "resource.Quantity")
  end.

Definition as_object (target : string) (v : json)
  : list (string * json) + error :=
  match v with
  | JObj m => inl m
  | JNull => inl []
  | _ => inr (type_error v target)
  end.

Definition as_array (target : string) (v : json) : list json + error :=
  match v with
  | JArr l => inl l
  | JNull => inl []
  | _ => inr (type_error v target)
  end.

Fixpoint as_map (elem : json -> string + error)
    (m : list (string * json)) : gmap string string + error :=
  match m with
  | [] => inl ∅
  | (k, v) :: m' =>
      let! s := elem v in let! r := as_map elem m' in inl (<[k := s]> r)
  end.

Fixpoint each {A : Type} (f : json -> A + error) (l : list json)
  : list A + error :=
  match l with
  | [] => inl []
  | v :: l' => let! a := f v in let! r := each f l' in inl (a :: r)
  end.

Definition decode_resources (v : json) : ResourceRequirements.t + error :=
  let! o := as_object "v1.ResourceRequirements" v in
  let! lim := as_object "v1.ResourceList" (member "limits" o) in
  let! limits := as_map as_quantity lim in
  let! req := as_object "v1.ResourceList" (member "requests" o) in
  let! requests := as_map as_quantity req in
  inl (ResourceRequirements.mk limits requests).

Definition decode_container (v : json) : Container.t + error :=
  let! o := as_object "v1.Container" v in
  let! name := as_string (member "name" o) in
  let! image := as_string (member "image" o) in
  let! resources := decode_resources (member "resources" o) in
  inl (Container.mk name image resources).

Definition decode_pod (v : json) : Pod.t + error :=
  let! o := as_object "v1.Pod" v in
  let! meta := as_object "v1.ObjectMeta" (member "metadata" o) in
  let! name := as_string (member "name" meta) in
  let! namespace := as_string (member "namespace" meta) in
  let! ann := as_object "map[string]string" (member "annotations" meta) in
  let! annotations := as_map as_string ann in
  let! spec := as_object "v1.PodSpec" (member "spec" o) in
  let! cs := as_array "[]v1.Container" (member "containers" spec) in
  let! containers := each decode_container cs in
  inl (Pod.mk (ObjectMeta.mk name namespace annotations)
         (PodSpec.mk containers)).

Definition decode_config (v : json) : config + error :=
  let! o := as_object "main.config" v in
  let! ps := as_array "[]v1.Pod" (member "Pods" o) in
  let! pods := each decode_pod ps in
  inl (mkConfig pods).

Definition decode_request (v : json) : AdmissionRequest.t + error :=
  let! o := as_object "v1.AdmissionRequest" v in
  let! uid := as_string (member "uid" o) in
  let! gvk := as_object "v1.GroupVersionKind" (member "kind" o) in
  let! kind := as_string (member "kind" gvk) in
  let! namespace := as_string (member "namespace" o) in
  let! name := as_string (member "name" o) in
  let! operation := as_string (member "operation" o) in
  let raw :=
    match obj_lookup "object" o with
    | Some JNull | None => ""
    | Some object => JSON.print object
    end in
  inl (AdmissionRequest.mk uid kind namespace name operation
         (RawExtension.mk raw)).

Definition decode_review (v : json) : AdmissionReview.t + error :=
  let! o := as_object "v1.AdmissionReview" v in
  match obj_lookup "request" o with
  | Some JNull | None => inl (AdmissionReview.mk None None)
  | Some r =>
      let! req := decode_request r in
      inl (AdmissionReview.mk (Some req) None)
  end.

Definition unmarshal {A : Type} (decode : json -> A + error) (data : string)
  : A + error :=
  match JSON.parse data with
  | Some v => decode (canon v)
  | None => inr syntax_error
  end.

(** *** Writing *)

Definition members (fields : list (string * option json))
  : list (string * json) :=
  fold_left
    (fun acc f => match f.2 with
                  | Some v => obj_insert f.1 v acc
                  | None => acc
                  end) fields [].

Definition omitempty_string (s : string) : option json :=
  match s with
  | EmptyString => None
  | _ => Some (JStr s)
  end.

Definition omitempty_map (m : gmap string string) : option json :=
  match map_to_list m with
  | [] => None
  | l => Some (JObj (members (map (fun kv => (kv.1, Some (JStr kv.2))) l)))
  end.

Definition encode_container (c : Container.t) : json :=
  let r := Container.Resources c in
  JObj (members
    [("name", Some (JStr (Container.Name c)));
     ("image", omitempty_string (Container.Image c));
     ("resources",
      Some (JObj (members
        [("limits", omitempty_map (ResourceRequirements.Limits r));
         ("requests", omitempty_map (ResourceRequirements.Requests r))])))]).

Definition encode_pod (p : Pod.t) : json :=
  let meta := Pod.ObjectMeta p in
  JObj (members
    [("metadata",
      Some (JObj (members
        [("name", omitempty_string (ObjectMeta.Name meta));
         ("namespace", omitempty_string (ObjectMeta.Namespace meta));
         ("annotations", omitempty_map (ObjectMeta.Annotations meta))])));
     ("spec",
      Some (JObj
        [("containers",
          JArr (map encode_container
                  (PodSpec.Containers (Pod.Spec p))))]))]).

(** *** JSON pointers *)

Fixpoint escape_token (s : string) : string :=
  match s with
  | EmptyString => ""
  | String a r =>
      (if Ascii.eqb a "~" then "~0"
       else if Ascii.eqb a "/" then "~1"
       else String a "") +:+ escape_token r
  end.

Definition token (s : step) : string :=
  match s with
  | Key k => escape_token k
  | Idx i => NilEmpty.string_of_uint (Nat.to_uint i)
  end.

Fixpoint pointer (p : path) : string :=
  match p with
  | [] => ""
  | s :: p' => "/" +:+ token s +:+ pointer p'
  end.

Definition operation (o : op) : JsonPatchOperation :=
  match o with
  | Replace p v => mkOperation "replace" (pointer p) (Some v)
  | Add p v => mkOperation "add" (pointer p) (Some v)
  | Remove p => mkOperation "remove" (pointer p) None
  end.

Definition encode_operation (o : JsonPatchOperation) : json :=
  JObj ([("op", JStr (Operation o)); ("path", JStr (Path o))]
        ++ match Value o with
           | Some v => [("value", v)]
           | None => []
           end).

Definition CreatePatch (a b : string) : list JsonPatchOperation + error :=
  match JSON.parse a, JSON.parse b with
  | Some va, Some vb =>
      inl (map operation (diff (canon va) (canon vb)))
  | _, _ => inr syntax_error
  end.

Definition Decode (body : string) : AdmissionReview.t * option error :=
  match unmarshal decode_review body with
  | inl ar => (ar, None)
  | inr e => (AdmissionReview.zero, Some e)
  end.

(** Modelled from the spec: the library functions that the webhook calls
    ([encoding/json], [jsonpatch], the apimachinery deserializer), which
    are not part of the repository, over the formats of sections 4.2, 4.4
    and 6. *)
Definition E : Externals := {|
  json_Unmarshal_Pod := unmarshal decode_pod;
  json_Unmarshal_config := unmarshal decode_config;
  json_Marshal_Pod := fun p => inl (JSON.print (encode_pod p));
  jsonpatch_CreatePatch := CreatePatch;
  json_Marshal_patch :=
    fun patch => inl (JSON.print (JArr (map encode_operation patch)));
  deserializer_Decode := Decode
|}.

(** JSON text written with apostrophes in place of quotation marks. *)
Fixpoint text (s : string) : string :=
  match s with
  | EmptyString => ""
  | String a r =>
      String (if Ascii.eqb a "'" then JSON.quote else a) (text r)
  end.

End Reference.

(** ** What the two container loops compute

    [last_override name overrides] is the override container whose
    resources end up in a container called [name]: the outer loop visits
    the override containers in order, so the last one of that name wins. *)

Definition names_match (configContainer initializedContainer : Container.t)
  : bool :=
  String.eqb (Container.Name configContainer)
             (Container.Name initializedContainer).

Definition override_one (configContainer initializedContainer : Container.t)
  : Container.t :=
  if names_match configContainer initializedContainer
  then Container.set_Resources initializedContainer
         (Container.Resources configContainer)
  else initializedContainer.

Definition last_override (name : string) (overrides : list Container.t)
  : option Container.t :=
  find (fun cc => String.eqb (Container.Name cc) name) (rev overrides).

Definition overridden (overrides : list Container.t) (ic : Container.t)
  : Container.t :=
  match last_override (Container.Name ic) overrides with
  | Some cc => Container.set_Resources ic (Container.Resources cc)
  | None => ic
  end.

(** The three ways in which [createPatch] finds nothing to change. *)
Definition nothing_to_patch (E : Externals) (annotation : string)
    (pod : Pod.t) : Prop :=
  let key := annotation +:+ ".podDefinition" in
  Pod.GetAnnotations pod !! key = None
  \/ (exists v c, Pod.GetAnnotations pod !! key = Some v
        /\ json_Unmarshal_config E v = inl c
        /\ forall p, p ∈ Pods c -> Pod.Name p <> Pod.Name pod)
  \/ (exists v c cpod, Pod.GetAnnotations pod !! key = Some v
        /\ json_Unmarshal_config E v = inl c
        /\ range_Pods (Pod.Name pod) (Pods c) Pod.zero = (cpod, true)
        /\ forall cc ic, cc ∈ PodSpec.Containers (Pod.Spec cpod) ->
             ic ∈ PodSpec.Containers (Pod.Spec pod) ->
             Container.Name cc <> Container.Name ic).

(** A request reaches the envelope decode stage of [serve] when its body
    is not empty and its content type is the expected one. *)
Definition reaches_decode (r : Request.t) (body : bytes) : Prop :=
  Request.Body r = Some body
  /\ body <> ""
  /\ Request.Header_Get r "Content-Type" = "application/json".

(** ** What the object diff leaves after its first pass

    The members of the original that the modified object also has, with
    the values of the modified object, in the order of the original. *)
Fixpoint obj_common (mb m : list (string * json)) : list (string * json) :=
  match m with
  | [] => []
  | (k, _) :: m' =>
      match obj_lookup k mb with
      | Some bv => (k, bv) :: obj_common mb m'
      | None => obj_common mb m'
      end
  end.

Definition keys_sorted (m : list (string * json)) : Prop :=
  StronglySorted String_as_OT.lt (map fst m).

(** ** Concrete requests

    The inputs at which the theorems below are instantiated. *)

Module Fixture.
Import Reference.

Definition key : string := defaultAnnotation +:+ ".podDefinition".

Definition resources (cpu memory : string) : ResourceRequirements.t :=
  ResourceRequirements.mk ∅ {[ "cpu" := cpu; "memory" := memory ]}.

(** The override specification of the README, for [test-run-solace-2]. *)
Definition solace_annotation : string :=
  text ("{'Pods':[{'metadata':{'name':'test-run-solace-2'},"
        +:+ "'spec':{'containers':[{'name':'solace','resources':"
        +:+ "{'requests':{'cpu':'500m','memory':'2Gi'}}}]}}]}").

Definition solace_pod (name namespace : string)
    (annotations : gmap string string) : Pod.t :=
  Pod.mk (ObjectMeta.mk name namespace annotations)
    (PodSpec.mk [Container.mk "solace" "solace-pubsub"
                   (resources "0.5" "1Gi")]).

(** An admission review for [pod], as the API server sends it. *)
Definition review_body (uid : string) (pod : Pod.t) : string :=
  text "{'request':{'uid':'" +:+ uid
  +:+ text "','kind':{'group':'','version':'v1','kind':'Pod'},"
  +:+ text "'namespace':'" +:+ Pod.Namespace pod
  +:+ text "','operation':'CREATE','object':"
  +:+ JSON.print (encode_pod pod) +:+ "}}".

Definition request_of (uid : string) (pod : Pod.t) : AdmissionRequest.t :=
  AdmissionRequest.mk uid "Pod" (Pod.Namespace pod) "" "CREATE"
    (RawExtension.mk (JSON.print (encode_pod pod))).

Definition review_of (uid : string) (pod : Pod.t) : AdmissionReview.t :=
  AdmissionReview.mk (Some (request_of uid pod)) None.

Definition post (body : string) : Request.t :=
  Request.mk (Some body) {[ "Content-Type" := ["application/json"] ]}.

(** C1: two containers share the name [solace]; the overrides name
    [solace] twice and a container that the Pod does not have. *)
Definition duplicated_pod : Pod.t :=
  Pod.mk (ObjectMeta.mk "test-run-solace-2" "default" ∅)
    (PodSpec.mk [Container.mk "solace" "solace-pubsub" (resources "0.5" "1Gi");
                 Container.mk "exporter" "prom" (resources "0.1" "64Mi");
                 Container.mk "solace" "solace-standby"
                   (resources "0.3" "512Mi")]).

Definition duplicated_entry : Pod.t :=
  Pod.mk (ObjectMeta.mk "test-run-solace-2" "" ∅)
    (PodSpec.mk [Container.mk "solace" "" (resources "250m" "1Gi");
                 Container.mk "absent" "" (resources "1" "1Gi");
                 Container.mk "solace" "" (resources "500m" "2Gi")]).

(** The patch from [duplicated_pod] to its working copy: both containers
    called [solace] get the requests of the last override of that name. *)
Definition duplicated_patch : string :=
  text ("[{'op':'replace','path':"
        +:+ "'/spec/containers/0/resources/requests/cpu','value':'500m'},"
        +:+ "{'op':'replace','path':"
        +:+ "'/spec/containers/0/resources/requests/memory','value':'2Gi'},"
        +:+ "{'op':'replace','path':"
        +:+ "'/spec/containers/2/resources/requests/cpu','value':'500m'},"
        +:+ "{'op':'replace','path':"
        +:+ "'/spec/containers/2/resources/requests/memory','value':'2Gi'}]").

(** C2: entries [a] and [b]; the target Pod is [c]. *)
Definition ab_annotation : string :=
  text ("{'Pods':[{'metadata':{'name':'a'},'spec':{'containers':"
        +:+ "[{'name':'solace','resources':{}}]}},"
        +:+ "{'metadata':{'name':'b'},'spec':{'containers':"
        +:+ "[{'name':'solace','resources':{}}]}}]}").

Definition entry_named (name : string) : Pod.t :=
  Pod.mk (ObjectMeta.mk name "" ∅)
    (PodSpec.mk [Container.mk "solace" "" ResourceRequirements.zero]).

Definition pod_c : Pod.t :=
  solace_pod "c" "default" {[ key := ab_annotation ]}.

(** C3: a Pod of the system namespace, with an annotation that is not
    JSON. *)
Definition system_pod : Pod.t :=
  solace_pod "kube-dns-0" "kube-system" {[ key := "not json" ]}.

(** C4, C6, C7: annotations that are not JSON. *)
Definition malformed_pod : Pod.t :=
  solace_pod "test-run-solace-2" "default" {[ key := "not json" ]}.

Definition truncated_pod : Pod.t :=
  solace_pod "test-run-solace-1" "default"
    {[ key := text "{'Pods':[{'metadata':" ]}.

Definition unterminated_pod : Pod.t :=
  solace_pod "test-run-solace-0" "default" {[ key := "{" ]}.

(** C5: no annotation at all. *)
Definition plain_pod : Pod.t := solace_pod "web-0" "default" ∅.

(** C7: the annotation names another Pod. *)
Definition other_pod : Pod.t :=
  solace_pod "test-run-solace-0" "default" {[ key := solace_annotation ]}.

(** C8: the Pod of the README. *)
Definition readme_pod : Pod.t :=
  solace_pod "test-run-solace-2" "default" {[ key := solace_annotation ]}.

(** C8: the same review followed by a stray brace, so that it is not a
    JSON text any more. *)
Definition garbled_body : string :=
  review_body "705ab4f5" readme_pod +:+ "}".

(** C9: two documents; in the second one the members are not in key
    order. *)
Definition original_doc : json :=
  JObj [("metadata", JObj [("name", JStr "p"); ("uid", JStr "1")]);
        ("spec", JObj [("containers",
           JArr [JObj [("name", JStr "solace");
                       ("resources",
                        JObj [("requests", JObj [("cpu", JStr "0.5")])])]])])].

Definition modified_doc : json :=
  JObj [("spec", JObj [("containers",
           JArr [JObj [("resources",
                        JObj [("requests", JObj [("cpu", JStr "500m")]);
                              ("limits", JObj [("cpu", JStr "1")])]);
                       ("name", JStr "solace")]])]);
        ("metadata", JObj [("name", JStr "p"); ("labels", JObj [])])].

End Fixture.

(** ** cmd/webhook.go: the end of [serve]

    Lines 224-233: the review is marshalled and written.  The response
    writer is the sequence of the calls made on it.  [json.Marshal] on the
    review and the outcome of [w.Write] are parameters; on failure
    [json.Marshal] returns nil bytes with its error. *)

Definition StatusInternalServerError : nat := 500.

Inductive writer_call : Type :=
| call_http_Error (message : string) (code : nat)
| call_Write (data : string).

Section ServeHTTP.
Variable E : Externals.
Variable annotation : string.
Variable json_Marshal_review : AdmissionReview.t -> string + error.
(** The error of [w.Write(data)], if it fails. *)
Variable w_Write : string -> option error.

(** [serve], lines 224-233.  There is no [return] after the first
    [http.Error], so [w.Write] is reached on both paths. *)
Definition write_review (admissionReview : AdmissionReview.t)
  : list writer_call :=
  let '(resp, calls) :=
    match json_Marshal_review admissionReview with
    | inl resp => (resp, [])
    | inr err =>
        ("", [call_http_Error ("could not encode response: " +:+ Error err)
                StatusInternalServerError])
    end in
  let calls := calls ++ [call_Write resp] in
  match w_Write resp with
  | Some err =>
      calls ++ [call_http_Error ("could not write response: " +:+ Error err)
                  StatusInternalServerError]
  | None => calls
  end.

(** [serve] with its calls on the response writer. *)
Definition serve_calls (r : Request.t) : outcome (list writer_call) :=
  match serve E annotation r with
  | Panicked reason => Panicked reason
  | Returned (http_Error message code) =>
      Returned [call_http_Error message code]
  | Returned (Write admissionReview) =>
      Returned (write_review admissionReview)
  end.
End ServeHTTP.

(** The names of the override containers, for the order in which they are
    applied. *)
Definition override_names (overrides : list Container.t) : list string :=
  map Container.Name overrides.

(** The shape of every response that [mutate] and [serve] build: allowed
    exactly when there is no status message; a patch type only on an
    allowed response, and then [JSONPatch]; patch bytes only with a patch
    type. *)
Definition consistent_response (resp : AdmissionResponse.t) : Prop :=
  (AdmissionResponse.Allowed resp = true
   <-> AdmissionResponse.Result resp = None)
  /\ (forall pt, AdmissionResponse.PatchType resp = Some pt ->
        pt = PatchTypeJSONPatch /\ AdmissionResponse.Allowed resp = true)
  /\ (AdmissionResponse.Patch resp <> "" ->
      AdmissionResponse.PatchType resp = Some PatchTypeJSONPatch).

(** The body that [serve] reads: nothing when there is no body or reading
    it fails. *)
Definition body_of (r : Request.t) : string :=
  match Request.Body r with
  | Some data => data
  | None => ""
  end.

Definition is_Write (c : writer_call) : bool :=
  match c with
  | call_Write _ => true
  | call_http_Error _ _ => false
  end.

(** ** More concrete requests *)

Module Scenario.
Import Reference Fixture.

(** Two override containers of one name, and the containers of a Pod. *)
Definition early : Container.t :=
  Container.mk "solace" "" (resources "250m" "1Gi").
Definition late : Container.t :=
  Container.mk "solace" "" (resources "500m" "2Gi").
Definition exporter : Container.t :=
  Container.mk "exporter" "" (resources "50m" "32Mi").
Definition containers : list Container.t :=
  PodSpec.Containers (Pod.Spec duplicated_pod).

(** The patch for the Pod of the README, the response that [mutate]
    builds and the review that [serve] writes. *)
Definition readme_patch : string :=
  text ("[{'op':'replace','path':"
        +:+ "'/spec/containers/0/resources/requests/cpu',"
        +:+ "'value':'500m'},{'op':'replace','path':"
        +:+ "'/spec/containers/0/resources/requests/memory',"
        +:+ "'value':'2Gi'}]").
Definition readme_response (uid : string) : AdmissionResponse.t :=
  {| AdmissionResponse.UID := uid;
     AdmissionResponse.Allowed := true;
     AdmissionResponse.Result := None;
     AdmissionResponse.Patch := readme_patch;
     AdmissionResponse.PatchType := Some "JSONPatch" |}.
Definition readme_review : AdmissionReview.t :=
  {| AdmissionReview.Request := None;
     AdmissionReview.Response := Some (readme_response "705ab4f5") |}.

(** An envelope whose object is a string and not a Pod. *)
Definition string_object_body : string :=
  text "{'request':{'uid':'77aa','object':'nope'}}".
Definition string_object_request : AdmissionRequest.t :=
  AdmissionRequest.mk "77aa" "" "" "" ""
    (RawExtension.mk (JSON.print (JStr "nope"))).

(** The raw Pod of the README in a request to delete a Deployment of the
    system namespace. *)
Definition other_request : AdmissionRequest.t :=
  AdmissionRequest.mk "b2b2" "Deployment" "kube-system" "web" "DELETE"
    (RawExtension.mk (JSON.print (encode_pod readme_pod))).

(** Two entries for [test-run-solace-2]: the first names a container that
    the Pod does not have, the second names [solace]. *)
Definition shadow_annotation : string :=
  text ("{'Pods':[{'metadata':{'name':'test-run-solace-2'},"
        +:+ "'spec':{'containers':[{'name':'sidecar','resources':{}}]}},"
        +:+ "{'metadata':{'name':'test-run-solace-2'},"
        +:+ "'spec':{'containers':[{'name':'solace','resources':"
        +:+ "{'requests':{'cpu':'500m','memory':'2Gi'}}}]}}]}").
Definition shadow_first : Pod.t :=
  Pod.mk (ObjectMeta.mk "test-run-solace-2" "" ∅)
    (PodSpec.mk [Container.mk "sidecar" "" ResourceRequirements.zero]).
Definition shadow_second : Pod.t :=
  Pod.mk (ObjectMeta.mk "test-run-solace-2" "" ∅)
    (PodSpec.mk [Container.mk "solace" "" (resources "500m" "2Gi")]).
Definition shadowed_pod : Pod.t :=
  solace_pod "test-run-solace-2" "default" {[ key := shadow_annotation ]}.

(** A Pod whose container already has the requests of the override. *)
Definition settled_pod : Pod.t :=
  Pod.mk (ObjectMeta.mk "test-run-solace-2" "default"
            {[ key := solace_annotation ]})
    (PodSpec.mk [Container.mk "solace" "solace-pubsub"
                   (resources "500m" "2Gi")]).
Definition settled_entry : Pod.t := shadow_second.

(** An override specification without entries. *)
Definition no_entries_pod : Pod.t :=
  solace_pod "test-run-solace-2" "default" {[ key := text "{'Pods':[]}" ]}.

(** The annotation under the flag value itself. *)
Definition bare_key_pod : Pod.t :=
  solace_pod "test-run-solace-2" "default"
    {[ defaultAnnotation := solace_annotation ]}.

(** A marshaller that fails, and a writer that does not. *)
Definition failing_marshal (review : AdmissionReview.t) : string + error :=
  inr (mkError "json: unsupported value").
Definition writes (data : string) : option error := None.

End Scenario.

(** * Properties of the mutation pipeline *)

(** ** Namespace policy *)

Lemma mutationRequired_false_iff (ignoredList : list string)
    (metadata : ObjectMeta.t) :
  mutationRequired ignoredList metadata = false
  <-> ObjectMeta.Namespace metadata ∈ ignoredList.
Proof.
  induction ignoredList as [|namespace rest IH]; simpl.
  - split; [discriminate | intros H; inversion H].
  - destruct (String.eqb_spec (ObjectMeta.Namespace metadata) namespace)
      as [Heq | Hne].
    + split; [intros _; rewrite Heq; constructor | reflexivity].
    + rewrite IH. split.
      * intros H. now constructor.
      * intros H. inversion H; subst; [congruence | assumption].
Qed.

Lemma mutationRequired_true_iff (ignoredList : list string)
    (metadata : ObjectMeta.t) :
  mutationRequired ignoredList metadata = true
  <-> ObjectMeta.Namespace metadata ∉ ignoredList.
Proof.
  rewrite <- mutationRequired_false_iff.
  destruct (mutationRequired ignoredList metadata); split; congruence.
Qed.

(** ** The search for the override entry *)

Lemma range_Pods_none (name : string) (pods : list Pod.t) (cpod : Pod.t) :
  (forall p, p ∈ pods -> Pod.Name p <> name) ->
  (range_Pods name pods cpod).2 = false.
Proof.
  revert cpod. induction pods as [|p rest IH]; intros cpod Hno; simpl.
  - reflexivity.
  - destruct (String.eqb_spec name (Pod.Name p)) as [Heq | Hne].
    + exfalso. apply (Hno p); [constructor | congruence].
    + apply IH. intros q Hq. apply Hno. now constructor.
Qed.

Lemma range_Pods_first (name : string) (before after : list Pod.t)
    (p cpod : Pod.t) :
  (forall q, q ∈ before -> Pod.Name q <> name) ->
  Pod.Name p = name ->
  range_Pods name (before ++ p :: after) cpod = (p, true).
Proof.
  revert cpod. induction before as [|q rest IH]; intros cpod Hno Hp; simpl.
  - subst name. now rewrite String.eqb_refl.
  - destruct (String.eqb_spec name (Pod.Name q)) as [Heq | Hne].
    + exfalso. apply (Hno q); [constructor | congruence].
    + apply IH; [|assumption]. intros r Hr. apply Hno. now constructor.
Qed.

Lemma range_Pods_found (name : string) (pods : list Pod.t)
    (cpod0 cpod : Pod.t) :
  range_Pods name pods cpod0 = (cpod, true) ->
  exists before after,
    pods = before ++ cpod :: after
    /\ Pod.Name cpod = name
    /\ forall q, q ∈ before -> Pod.Name q <> name.
Proof.
  revert cpod0. induction pods as [|p rest IH]; intros cpod0; simpl.
  - discriminate.
  - destruct (String.eqb_spec name (Pod.Name p)) as [Heq | Hne].
    + intros [= <-]. exists [], rest. repeat split; [congruence|].
      intros q Hq. inversion Hq.
    + intros H. destruct (IH _ H) as (before & after & -> & Hn & Hno).
      exists (p :: before), after. repeat split; [assumption|].
      intros q Hq. inversion Hq; subst; [congruence | now apply Hno].
Qed.

(** ** The container loops *)

Lemma override_one_Name (cc ic : Container.t) :
  Container.Name (override_one cc ic) = Container.Name ic.
Proof. unfold override_one. now destruct (names_match cc ic). Qed.

Lemma range_initialized_spec (cc : Container.t)
    (suffix prefix : list Container.t) (found : bool) :
  range_initialized cc (length suffix) (length prefix)
    (prefix ++ suffix, found)
  = (prefix ++ map (override_one cc) suffix,
     found || existsb (names_match cc) suffix).
Proof.
  revert prefix found.
  induction suffix as [|ic suffix IH]; intros prefix found; simpl.
  - now rewrite orb_false_r.
  - rewrite list_lookup_middle by reflexivity.
    unfold override_one at 1. fold (names_match cc ic).
    destruct (names_match cc ic); simpl.
    + rewrite insert_app_r_alt by lia. rewrite Nat.sub_diag. simpl.
      pose proof (IH (prefix ++ [Container.set_Resources ic
                                   (Container.Resources cc)]) true) as IH'.
      rewrite length_app, Nat.add_1_r, <- !app_assoc in IH'.
      simpl in IH'. rewrite IH'. now rewrite orb_true_r.
    + pose proof (IH (prefix ++ [ic]) found) as IH'.
      rewrite length_app, Nat.add_1_r, <- !app_assoc in IH'.
      simpl in IH'. now rewrite IH'.
Qed.

Lemma existsb_names_match_override (cc cc' : Container.t)
    (l : list Container.t) :
  existsb (names_match cc) (map (override_one cc') l)
  = existsb (names_match cc) l.
Proof.
  induction l as [|ic l IH]; simpl; [reflexivity|].
  rewrite IH. unfold names_match at 1. rewrite override_one_Name.
  reflexivity.
Qed.

Lemma range_config_spec (overrides l : list Container.t) (found : bool) :
  range_config overrides (l, found)
  = (fold_left (fun l cc => map (override_one cc) l) overrides l,
     found || existsb (fun cc => existsb (names_match cc) l) overrides).
Proof.
  revert l found.
  induction overrides as [|cc rest IH]; intros l found; simpl.
  - now rewrite orb_false_r.
  - pose proof (range_initialized_spec cc l [] found) as Hin.
    simpl in Hin. rewrite Hin.
    rewrite IH. f_equal. rewrite <- orb_assoc. f_equal. f_equal.
    clear. induction rest as [|cc' rest IH]; simpl; [reflexivity|].
    now rewrite existsb_names_match_override, IH.
Qed.

Lemma last_override_snoc (name : string) (overrides : list Container.t)
    (cc : Container.t) :
  last_override name (overrides ++ [cc])
  = if String.eqb (Container.Name cc) name then Some cc
    else last_override name overrides.
Proof. unfold last_override. now rewrite rev_unit. Qed.

Lemma overridden_snoc (overrides : list Container.t)
    (cc ic : Container.t) :
  overridden (overrides ++ [cc]) ic = override_one cc (overridden overrides ic).
Proof.
  unfold overridden, override_one, names_match.
  rewrite last_override_snoc.
  destruct (last_override (Container.Name ic) overrides); simpl;
    now destruct (String.eqb (Container.Name cc) (Container.Name ic)).
Qed.

Lemma fold_override_overridden (overrides l : list Container.t) :
  fold_left (fun l cc => map (override_one cc) l) overrides l
  = map (overridden overrides) l.
Proof.
  induction overrides as [|cc overrides IH] using rev_ind.
  - simpl. symmetry. apply map_id.
  - rewrite fold_left_app. simpl. rewrite IH, map_map.
    apply map_ext. intros ic. now rewrite overridden_snoc.
Qed.

Lemma last_override_Some (name : string) (overrides : list Container.t)
    (cc : Container.t) :
  last_override name overrides = Some cc ->
  cc ∈ overrides /\ Container.Name cc = name.
Proof.
  unfold last_override. intros H. apply find_some in H as [Hin Heq].
  split.
  - apply list_elem_of_In. now apply in_rev.
  - now apply String.eqb_eq.
Qed.

Lemma last_override_None (name : string) (overrides : list Container.t) :
  last_override name overrides = None ->
  forall cc, cc ∈ overrides -> Container.Name cc <> name.
Proof.
  unfold last_override. intros H cc Hin Heq.
  apply list_elem_of_In, in_rev in Hin.
  pose proof (find_none _ _ H cc Hin) as Hf. simpl in Hf.
  apply String.eqb_neq in Hf. contradiction.
Qed.

Lemma existsb_match_iff (overrides l : list Container.t) :
  existsb (fun cc => existsb (names_match cc) l) overrides = true
  <-> exists cc ic, cc ∈ overrides /\ ic ∈ l
        /\ Container.Name cc = Container.Name ic.
Proof.
  rewrite existsb_exists. split.
  - intros (cc & Hcc & H). apply existsb_exists in H as (ic & Hic & H).
    exists cc, ic. rewrite !list_elem_of_In.
    repeat split; try assumption. now apply String.eqb_eq.
  - intros (cc & ic & Hcc & Hic & H). exists cc.
    rewrite list_elem_of_In in Hcc, Hic. split; [assumption|].
    apply existsb_exists. exists ic. split; [assumption|].
    now apply String.eqb_eq.
Qed.

(** * The patch codec *)

(** ** Induction over documents *)

Lemma json_nested_ind (P : json -> Prop) :
  P JNull ->
  (forall b, P (JBool b)) ->
  (forall s, P (JNum s)) ->
  (forall s, P (JStr s)) ->
  (forall l, Forall P l -> P (JArr l)) ->
  (forall m, Forall (fun kv => P kv.2) m -> P (JObj m)) ->
  forall v, P v.
Proof.
  intros Hnull Hbool Hnum Hstr Harr Hobj.
  fix IH 1. intros [ | b | s | s | l | m ].
  - exact Hnull.
  - apply Hbool.
  - apply Hnum.
  - apply Hstr.
  - apply Harr. induction l as [|x l IHl]; constructor; [apply IH | exact IHl].
  - apply Hobj. induction m as [|[k x] m IHm]; constructor;
      [apply IH | exact IHm].
Qed.

(** ** The key order *)

Lemma str_lt_irrefl (k : string) : ~ String_as_OT.lt k k.
Proof. apply (StrictOrder_Irreflexive (R := String_as_OT.lt)). Qed.

Lemma str_lt_trans (a b c : string) :
  String_as_OT.lt a b -> String_as_OT.lt b c -> String_as_OT.lt a c.
Proof. apply (StrictOrder_Transitive (R := String_as_OT.lt)). Qed.

Lemma str_ltb_lt (a b : string) : str_ltb a b = true <-> String_as_OT.lt a b.
Proof.
  unfold str_ltb, String_as_OT.lt.
  destruct (String_as_OT.compare a b); split; congruence.
Qed.

Lemma keys_increasing_sorted (ks : list string) :
  keys_increasing ks = true -> StronglySorted String_as_OT.lt ks.
Proof.
  induction ks as [|k rest IH]; [constructor|].
  destruct rest as [|k' rest'].
  - intros _. repeat constructor.
  - cbn [keys_increasing]. intros H. apply andb_true_iff in H as [Hlt Hrest].
    apply str_ltb_lt in Hlt. specialize (IH Hrest).
    constructor; [assumption|].
    constructor; [assumption|].
    apply StronglySorted_inv in IH as [_ Hall].
    eapply Forall_impl; [exact Hall|].
    intros x Hx. now apply (str_lt_trans k k' x).
Qed.

Lemma sorted_head_not_in (k : string) (ks : list string) :
  Forall (String_as_OT.lt k) ks -> ~ In k ks.
Proof.
  intros Hall Hin. rewrite List.Forall_forall in Hall.
  exact (str_lt_irrefl k (Hall k Hin)).
Qed.

Lemma sorted_NoDup (ks : list string) :
  StronglySorted String_as_OT.lt ks -> List.NoDup ks.
Proof.
  induction 1 as [|k ks Hs IH Hall]; constructor; [|assumption].
  now apply sorted_head_not_in.
Qed.

(** ** Association lists *)

Lemma obj_lookup_not_in (k : string) (m : list (string * json)) :
  ~ In k (map fst m) -> obj_lookup k m = None.
Proof.
  induction m as [|[k' v] m IH]; simpl; [reflexivity|].
  intros Hno. destruct (String.eqb_spec k k') as [-> | Hne].
  - exfalso. apply Hno. now left.
  - apply IH. intros Hin. apply Hno. now right.
Qed.

Lemma obj_lookup_in (k : string) (v : json) (m : list (string * json)) :
  obj_lookup k m = Some v -> In (k, v) m.
Proof.
  induction m as [|[k' v'] m IH]; simpl; [discriminate|].
  destruct (String.eqb_spec k k') as [-> | Hne].
  - intros [= ->]. now left.
  - intros H. right. now apply IH.
Qed.

Lemma obj_lookup_key_in (k : string) (m : list (string * json)) :
  In k (map fst m) -> exists v, obj_lookup k m = Some v.
Proof.
  induction m as [|[k' v'] m IH]; simpl; [contradiction|].
  destruct (String.eqb_spec k k') as [-> | Hne]; [eauto|].
  intros [Heq | Hin]; [congruence | now apply IH].
Qed.

Lemma obj_lookup_middle (k : string) (v : json)
    (done m : list (string * json)) :
  ~ In k (map fst done) -> obj_lookup k (done ++ (k, v) :: m) = Some v.
Proof.
  induction done as [|[k' v'] done IH]; simpl; intros Hno.
  - now rewrite String.eqb_refl.
  - destruct (String.eqb_spec k k') as [-> | Hne]; [tauto|].
    apply IH. tauto.
Qed.

Lemma obj_replace_middle (k : string) (v c : json)
    (done m : list (string * json)) :
  ~ In k (map fst done) ->
  obj_replace k c (done ++ (k, v) :: m) = done ++ (k, c) :: m.
Proof.
  induction done as [|[k' v'] done IH]; simpl; intros Hno.
  - now rewrite String.eqb_refl.
  - destruct (String.eqb_spec k k') as [-> | Hne]; [tauto|].
    f_equal. apply IH. tauto.
Qed.

Lemma obj_delete_middle (k : string) (v : json)
    (done m : list (string * json)) :
  ~ In k (map fst done) ->
  obj_delete k (done ++ (k, v) :: m) = done ++ m.
Proof.
  induction done as [|[k' v'] done IH]; simpl; intros Hno.
  - now rewrite String.eqb_refl.
  - destruct (String.eqb_spec k k') as [-> | Hne]; [tauto|].
    f_equal. apply IH. tauto.
Qed.

Lemma obj_lookup_replace (k : string) (c c' : json)
    (m : list (string * json)) :
  obj_lookup k m = Some c -> obj_lookup k (obj_replace k c' m) = Some c'.
Proof.
  induction m as [|[k' v'] m IH]; simpl; [discriminate|].
  destruct (String.eqb_spec k k') as [-> | Hne]; simpl.
  - now rewrite String.eqb_refl.
  - intros H. apply String.eqb_neq in Hne. rewrite Hne. now apply IH.
Qed.

Lemma obj_replace_replace (k : string) (c c' : json)
    (m : list (string * json)) :
  obj_replace k c' (obj_replace k c m) = obj_replace k c' m.
Proof.
  induction m as [|[k' v'] m IH]; simpl; [reflexivity|].
  destruct (String.eqb_spec k k') as [-> | Hne]; simpl.
  - now rewrite String.eqb_refl.
  - apply String.eqb_neq in Hne. rewrite Hne. now rewrite IH.
Qed.

Lemma obj_replace_id (k : string) (c : json) (m : list (string * json)) :
  obj_lookup k m = Some c -> obj_replace k c m = m.
Proof.
  induction m as [|[k' v'] m IH]; simpl; [reflexivity|].
  destruct (String.eqb_spec k k') as [-> | Hne].
  - now intros [= ->].
  - intros H. now rewrite IH.
Qed.

Lemma str_compare_eq (a b : string) :
  String_as_OT.compare a b = Eq -> a = b.
Proof.
  intros H. destruct (String_as_OT.compare_spec a b); congruence.
Qed.

Lemma str_compare_lt_ne (a b : string) :
  String_as_OT.compare a b = Lt -> a <> b.
Proof. intros H ->. exact (str_lt_irrefl b H). Qed.

Lemma str_compare_gt (a b : string) :
  String_as_OT.compare a b = Gt -> String_as_OT.lt b a.
Proof.
  intros H. destruct (String_as_OT.compare_spec a b); congruence.
Qed.

Lemma obj_lookup_insert (k k' : string) (v : json)
    (m : list (string * json)) :
  obj_lookup k' (obj_insert k v m)
  = if String.eqb k' k then Some v else obj_lookup k' m.
Proof.
  induction m as [|[k0 v0] m IH]; simpl.
  - reflexivity.
  - destruct (String_as_OT.compare k k0) eqn:Hcmp; simpl.
    + apply str_compare_eq in Hcmp. subst k0.
      now destruct (String.eqb k' k).
    + reflexivity.
    + rewrite IH. destruct (String.eqb_spec k' k0) as [-> | Hne];
        [|reflexivity].
      apply str_compare_gt in Hcmp.
      destruct (String.eqb_spec k0 k) as [-> | _]; [|reflexivity].
      exfalso. exact (str_lt_irrefl k Hcmp).
Qed.

Lemma obj_insert_keys (k x : string) (v : json) (m : list (string * json)) :
  In x (map fst (obj_insert k v m)) -> x = k \/ In x (map fst m).
Proof.
  induction m as [|[k0 v0] m IH]; simpl.
  - intros [<- | []]. now left.
  - destruct (String_as_OT.compare k k0); simpl.
    + intros [<- | H]; [now left | right; now right].
    + intros [<- | [<- | H]]; [now left | right; now left | right; now right].
    + intros [<- | H]; [right; now left|].
      destruct (IH H) as [-> | Hin]; [now left | right; now right].
Qed.

Lemma obj_insert_sorted (k : string) (v : json) (m : list (string * json)) :
  keys_sorted m -> keys_sorted (obj_insert k v m).
Proof.
  unfold keys_sorted.
  induction m as [|[k0 v0] m IH]; simpl; intros Hs.
  - repeat constructor.
  - apply StronglySorted_inv in Hs as [Hs Hall].
    destruct (String_as_OT.compare k k0) eqn:Hcmp; simpl.
    + apply str_compare_eq in Hcmp. subst k0. now constructor.
    + constructor; [now constructor|].
      constructor; [exact Hcmp|].
      eapply Forall_impl; [exact Hall|].
      intros x Hx. now apply (str_lt_trans k k0 x).
    + constructor; [now apply IH|].
      apply List.Forall_forall. intros x Hx.
      destruct (obj_insert_keys _ _ _ _ Hx) as [-> | Hin].
      * now apply str_compare_gt.
      * rewrite List.Forall_forall in Hall. now apply Hall.
Qed.

Lemma keys_sorted_ext (m1 m2 : list (string * json)) :
  keys_sorted m1 -> keys_sorted m2 ->
  (forall k, obj_lookup k m1 = obj_lookup k m2) ->
  m1 = m2.
Proof.
  unfold keys_sorted. revert m2.
  induction m1 as [|[k1 v1] m1 IH]; intros [|[k2 v2] m2] Hs1 Hs2 Hext.
  - reflexivity.
  - specialize (Hext k2). simpl in Hext.
    rewrite String.eqb_refl in Hext. discriminate.
  - specialize (Hext k1). simpl in Hext.
    rewrite String.eqb_refl in Hext. discriminate.
  - simpl in Hs1, Hs2.
    apply StronglySorted_inv in Hs1 as [Hs1 Hall1].
    apply StronglySorted_inv in Hs2 as [Hs2 Hall2].
    assert (Hk : k1 = k2).
    { destruct (String_as_OT.compare_spec k1 k2) as [Heq | Hlt | Hlt].
      - exact Heq.
      - exfalso. pose proof (Hext k1) as H. simpl in H.
        rewrite String.eqb_refl in H.
        destruct (String.eqb_spec k1 k2) as [-> | _];
          [exact (str_lt_irrefl k2 Hlt)|].
        rewrite obj_lookup_not_in in H; [discriminate|].
        apply sorted_head_not_in.
        eapply Forall_impl; [exact Hall2|].
        intros x Hx. now apply (str_lt_trans k1 k2 x).
      - exfalso. pose proof (Hext k2) as H. simpl in H.
        rewrite String.eqb_refl in H.
        destruct (String.eqb_spec k2 k1) as [-> | _];
          [exact (str_lt_irrefl k1 Hlt)|].
        rewrite obj_lookup_not_in in H; [discriminate|].
        apply sorted_head_not_in.
        eapply Forall_impl; [exact Hall1|].
        intros x Hx. now apply (str_lt_trans k2 k1 x). }
    subst k2.
    assert (Hv : v1 = v2).
    { pose proof (Hext k1) as H. simpl in H.
      rewrite String.eqb_refl in H. congruence. }
    subst v2. f_equal. apply IH; try assumption.
    intros k. pose proof (Hext k) as H. simpl in H.
    destruct (String.eqb_spec k k1) as [Heq | Hne]; [|exact H].
    rewrite Heq.
    rewrite !obj_lookup_not_in; [reflexivity | |];
      now apply sorted_head_not_in.
Qed.

(** ** Members of a document *)

Lemma get_set_child (s : step) (c c' v : json) :
  get_child s v = Some c -> get_child s (set_child s c' v) = Some c'.
Proof.
  destruct s as [k | i], v as [ | | | | l | m]; simpl; try discriminate.
  - apply obj_lookup_replace.
  - intros H. apply list_lookup_insert_eq. now apply lookup_lt_Some in H.
Qed.

Lemma set_set_child (s : step) (c c' v : json) :
  set_child s c' (set_child s c v) = set_child s c' v.
Proof.
  destruct s as [k | i], v as [ | | | | l | m]; simpl; try reflexivity.
  - now rewrite obj_replace_replace.
  - now rewrite list_insert_insert_eq.
Qed.

Lemma set_child_id (s : step) (c v : json) :
  get_child s v = Some c -> set_child s c v = v.
Proof.
  destruct s as [k | i], v as [ | | | | l | m]; simpl; try discriminate.
  - intros H. now rewrite obj_replace_id.
  - intros H. now rewrite list_insert_id.
Qed.

(** ** Operations below a member *)

Lemma names_member_under (s : step) (o : op) : names_member (under s o) = true.
Proof. now destruct o. Qed.

Lemma apply_op_under (s : step) (o : op) (v : json) :
  names_member o = true ->
  apply_op (under s o) v = update_child s (apply_op o) v.
Proof.
  destruct o as [p c | [|s' p] c | [|s' p]]; simpl; try discriminate;
    reflexivity.
Qed.

Lemma apply_patch_under (s : step) (ops : list op) (v c : json) :
  forallb names_member ops = true ->
  get_child s v = Some c ->
  apply_patch (map (under s) ops) v
  = match apply_patch ops c with
    | Some c' => Some (set_child s c' v)
    | None => None
    end.
Proof.
  revert v c. induction ops as [|o ops IH]; intros v c Hops Hget.
  - simpl. now rewrite set_child_id.
  - simpl in Hops. apply andb_true_iff in Hops as [Ho Hops].
    cbn [map apply_patch]. rewrite (apply_op_under s o v Ho).
    unfold update_child. rewrite Hget.
    destruct (apply_op o c) as [c1|]; [|reflexivity].
    rewrite (IH (set_child s c1 v) c1 Hops (get_set_child s c c1 v Hget)).
    destruct (apply_patch ops c1) as [c2|]; [|reflexivity].
    now rewrite set_set_child.
Qed.

Lemma apply_patch_app (ops1 ops2 : list op) (v : json) :
  apply_patch (ops1 ++ ops2) v
  = match apply_patch ops1 v with
    | Some v' => apply_patch ops2 v'
    | None => None
    end.
Proof.
  revert v. induction ops1 as [|o ops1 IH]; intros v; simpl; [reflexivity|].
  destruct (apply_op o v); [apply IH | reflexivity].
Qed.

Lemma diff_fields_names_member (rec : json -> json -> list op)
    (mb m : list (string * json)) :
  forallb names_member (diff_fields rec mb m) = true.
Proof.
  induction m as [|[k av] m IH]; simpl; [reflexivity|].
  rewrite forallb_app, IH, andb_true_r.
  destruct (obj_lookup k mb); [|reflexivity].
  apply forallb_forall. intros o Ho. apply in_map_iff in Ho as (o' & <- & _).
  apply names_member_under.
Qed.

Lemma diff_added_names_member (ma mb : list (string * json)) :
  forallb names_member (diff_added ma mb) = true.
Proof.
  induction mb as [|[k bv] mb IH]; simpl; [reflexivity|].
  rewrite forallb_app, IH, andb_true_r. now destruct (obj_lookup k ma).
Qed.

Lemma diff_elems_names_member (rec : json -> json -> list op) (i : nat)
    (la lb : list json) :
  forallb names_member (diff_elems rec i la lb) = true.
Proof.
  revert i lb. induction la as [|av la IH]; intros i [|bv lb]; simpl;
    try reflexivity.
  rewrite forallb_app, IH, andb_true_r.
  apply forallb_forall. intros o Ho. apply in_map_iff in Ho as (o' & <- & _).
  apply names_member_under.
Qed.

Lemma diff_doc_names_member (a b : json) :
  forallb names_member (diff_doc a b) = true.
Proof.
  destruct a as [ | x | x | x | la | ma], b as [ | y | y | y | lb | mb];
    simpl; try reflexivity.
  - now destruct (Bool.eqb x y).
  - now destruct (String.eqb x y).
  - now destruct (String.eqb x y).
  - destruct (Nat.eqb _ _); [apply diff_elems_names_member | reflexivity].
  - rewrite forallb_app, diff_fields_names_member.
    apply diff_added_names_member.
Qed.

(** ** Canonical documents *)

Lemma canonical_obj (m : list (string * json)) :
  canonical (JObj m) = true ->
  keys_sorted m /\ forall k v, In (k, v) m -> canonical v = true.
Proof.
  simpl. intros H. apply andb_true_iff in H as [Hk Hv]. split.
  - now apply keys_increasing_sorted.
  - intros k v Hin. rewrite forallb_forall in Hv. exact (Hv (k, v) Hin).
Qed.

Lemma canonical_arr (l : list json) :
  canonical (JArr l) = true -> forall v, In v l -> canonical v = true.
Proof. simpl. intros H v Hin. rewrite forallb_forall in H. now apply H. Qed.

Lemma obj_common_keys (mb m : list (string * json)) (x : string) :
  In x (map fst (obj_common mb m)) -> In x (map fst m).
Proof.
  induction m as [|[k av] m IH]; simpl; [tauto|].
  destruct (obj_lookup k mb); simpl; intuition.
Qed.

Lemma obj_common_sorted (mb m : list (string * json)) :
  keys_sorted m -> keys_sorted (obj_common mb m).
Proof.
  unfold keys_sorted. induction m as [|[k av] m IH]; simpl; intros Hs.
  - constructor.
  - apply StronglySorted_inv in Hs as [Hs Hall].
    destruct (obj_lookup k mb); [|now apply IH].
    simpl. constructor; [now apply IH|].
    apply List.Forall_forall. intros x Hx.
    rewrite List.Forall_forall in Hall.
    apply Hall. now apply (obj_common_keys mb m).
Qed.

Lemma obj_lookup_common (mb m : list (string * json)) (k : string) :
  obj_lookup k (obj_common mb m)
  = match obj_lookup k m with
    | Some _ => obj_lookup k mb
    | None => None
    end.
Proof.
  induction m as [|[k0 av] m IH]; simpl; [reflexivity|].
  destruct (String.eqb_spec k k0) as [Heq | Hne].
  - subst k0. destruct (obj_lookup k mb) as [bv|] eqn:Hb; simpl.
    + now rewrite String.eqb_refl.
    + rewrite IH. now destruct (obj_lookup k m).
  - destruct (obj_lookup k0 mb) as [bv|]; simpl; [|exact IH].
    apply String.eqb_neq in Hne. now rewrite Hne.
Qed.

(** ** The passes of the comparison, applied *)

Lemma apply_diff_fields (rec : json -> json -> list op)
    (mb m done : list (string * json)) :
  List.NoDup (map fst (done ++ m)) ->
  (forall k av bv, In (k, av) m -> obj_lookup k mb = Some bv ->
     apply_patch (rec av bv) av = Some bv
     /\ forallb names_member (rec av bv) = true) ->
  apply_patch (diff_fields rec mb m) (JObj (done ++ m))
  = Some (JObj (done ++ obj_common mb m)).
Proof.
  revert done. induction m as [|[k av] m IH]; intros done Hnd Hrec.
  - reflexivity.
  - rewrite map_app in Hnd. simpl in Hnd.
    pose proof (List.NoDup_remove _ _ _ Hnd) as [Hnd' Hk].
    assert (Hdone : ~ In k (map fst done))
      by (intros Hin; apply Hk, in_or_app; now left).
    simpl. rewrite apply_patch_app.
    destruct (obj_lookup k mb) as [bv|] eqn:Hb.
    + destruct (Hrec k av bv (or_introl eq_refl) Hb) as [Happ Hnm].
      rewrite (apply_patch_under (Key k) (rec av bv) _ av Hnm)
        by (simpl; now apply obj_lookup_middle).
      rewrite Happ. simpl. rewrite obj_replace_middle by assumption.
      rewrite (cons_middle (k, bv) done m), (cons_middle (k, bv) done).
      rewrite !app_assoc. apply IH.
      * rewrite <- app_assoc. simpl. rewrite map_app. exact Hnd.
      * intros k' av' bv' Hin. apply Hrec. now right.
    + simpl. rewrite obj_lookup_middle by assumption.
      rewrite obj_delete_middle by assumption.
      apply IH.
      * now rewrite map_app.
      * intros k' av' bv' Hin. apply Hrec. now right.
Qed.

Lemma apply_diff_added (ma mb cur : list (string * json)) :
  List.NoDup (map fst mb) ->
  keys_sorted cur ->
  exists final,
    apply_patch (diff_added ma mb) (JObj cur) = Some (JObj final)
    /\ keys_sorted final
    /\ forall k,
         obj_lookup k final
         = match obj_lookup k mb with
           | Some bv =>
               match obj_lookup k ma with
               | None => Some bv
               | Some _ => obj_lookup k cur
               end
           | None => obj_lookup k cur
           end.
Proof.
  revert cur. induction mb as [|[k0 bv0] mb IH]; intros cur Hnd Hs.
  - exists cur. now repeat split.
  - simpl in Hnd. apply List.NoDup_cons_iff in Hnd as [Hk0 Hnd].
    pose proof (obj_lookup_not_in k0 mb Hk0) as Hk0none.
    simpl. destruct (obj_lookup k0 ma) as [a0|] eqn:Ha; simpl.
    + destruct (IH cur Hnd Hs) as (final & Happ & Hsf & Hl).
      exists final. repeat split; try assumption.
      intros k. rewrite Hl.
      destruct (String.eqb_spec k k0) as [Heq | Hne]; [|reflexivity].
      subst k. now rewrite Hk0none, Ha.
    + destruct (IH (obj_insert k0 bv0 cur) Hnd (obj_insert_sorted _ _ _ Hs))
        as (final & Happ & Hsf & Hl).
      exists final. repeat split; try assumption.
      intros k. rewrite Hl, obj_lookup_insert.
      destruct (String.eqb_spec k k0) as [Heq | Hne].
      * subst k. now rewrite Hk0none, Ha.
      * reflexivity.
Qed.

Lemma apply_diff_elems (rec : json -> json -> list op)
    (la lb pre : list json) :
  length la = length lb ->
  Forall2 (fun av bv =>
             apply_patch (rec av bv) av = Some bv
             /\ forallb names_member (rec av bv) = true) la lb ->
  apply_patch (diff_elems rec (length pre) la lb) (JArr (pre ++ la))
  = Some (JArr (pre ++ lb)).
Proof.
  intros _ Hall. revert pre.
  induction Hall as [|av bv la lb [Happ Hnm] Hall IH]; intros pre.
  - reflexivity.
  - simpl. rewrite apply_patch_app.
    rewrite (apply_patch_under (Idx (length pre)) (rec av bv) _ av Hnm)
      by (simpl; now apply list_lookup_middle).
    rewrite Happ. simpl.
    rewrite insert_app_r_alt by lia. rewrite Nat.sub_diag. simpl.
    specialize (IH (pre ++ [bv])).
    rewrite length_app, Nat.add_1_r, <- !app_assoc in IH. exact IH.
Qed.

(** ** Round trip and comparison with itself *)

Lemma diff_doc_apply (a : json) :
  forall b, canonical a = true -> canonical b = true ->
  apply_patch (diff_doc a b) a = Some b.
Proof.
  induction a as [ | x | x | x | la IHa | ma IHa] using json_nested_ind;
    intros [ | y | y | y | lb | mb] Ha Hb; try reflexivity.
  - simpl. destruct (Bool.eqb_spec x y) as [-> | _]; reflexivity.
  - simpl. destruct (String.eqb_spec x y) as [-> | _]; reflexivity.
  - simpl. destruct (String.eqb_spec x y) as [-> | _]; reflexivity.
  - cbn [diff_doc]. destruct (Nat.eqb_spec (length la) (length lb)) as [Hlen | _];
      [|reflexivity].
    apply (apply_diff_elems diff_doc la lb [] Hlen).
    pose proof (canonical_arr la Ha) as Hca.
    pose proof (canonical_arr lb Hb) as Hcb.
    clear Ha Hb. revert lb Hlen Hcb.
    induction la as [|av la IHla]; intros [|bv lb] Hlen Hcb;
      try discriminate; constructor.
    + apply Forall_cons in IHa as [IHav _]. split.
      * apply IHav; [apply Hca | apply Hcb]; now left.
      * apply diff_doc_names_member.
    + apply Forall_cons in IHa as [_ IHa]. apply IHla.
      * exact IHa.
      * intros v Hv. apply Hca. now right.
      * simpl in Hlen. congruence.
      * intros v Hv. apply Hcb. now right.
  - cbn [diff_doc]. rewrite apply_patch_app.
    destruct (canonical_obj ma Ha) as [Hsa Hva].
    destruct (canonical_obj mb Hb) as [Hsb Hvb].
    assert (Hf : apply_patch (diff_fields diff_doc mb ma) (JObj ma)
                 = Some (JObj (obj_common mb ma))).
    { apply (apply_diff_fields diff_doc mb ma []).
      - simpl. now apply sorted_NoDup.
      - intros k av bv Hin Hkb. split; [|apply diff_doc_names_member].
        rewrite List.Forall_forall in IHa.
        apply (IHa (k, av) Hin bv).
        + exact (Hva k av Hin).
        + exact (Hvb k bv (obj_lookup_in k bv mb Hkb)). }
    rewrite Hf.
    destruct (apply_diff_added ma mb (obj_common mb ma))
      as (final & -> & Hsf & Hl).
    + now apply sorted_NoDup.
    + now apply obj_common_sorted.
    + f_equal. f_equal. apply keys_sorted_ext; try assumption.
      intros k. rewrite Hl, obj_lookup_common.
      destruct (obj_lookup k mb) as [bv|] eqn:Hkb;
        destruct (obj_lookup k ma) as [av|] eqn:Hka; reflexivity.
Qed.

Lemma diff_elems_self (l : list json) (i : nat) :
  Forall (fun v => diff_doc v v = []) l -> diff_elems diff_doc i l l = [].
Proof.
  intros Hall. revert i. induction Hall as [|v l Hv Hall IH]; intros i.
  - reflexivity.
  - simpl. now rewrite Hv, IH.
Qed.

Lemma diff_fields_self (ma m done : list (string * json)) :
  ma = done ++ m ->
  List.NoDup (map fst ma) ->
  Forall (fun kv => diff_doc kv.2 kv.2 = []) m ->
  diff_fields diff_doc ma m = [].
Proof.
  intros -> Hnd Hall. revert done Hnd.
  induction Hall as [|[k v] m Hv Hall IH]; intros done Hnd.
  - reflexivity.
  - simpl. rewrite map_app in Hnd. simpl in Hnd.
    pose proof (List.NoDup_remove _ _ _ Hnd) as [_ Hk].
    rewrite obj_lookup_middle
      by (intros Hin; apply Hk, in_or_app; now left).
    simpl in Hv. rewrite Hv. simpl.
    rewrite (cons_middle (k, v) done m), app_assoc. apply IH.
    rewrite <- app_assoc. simpl. now rewrite map_app.
Qed.

Lemma diff_added_self (ma m : list (string * json)) :
  (forall k, In k (map fst m) -> In k (map fst ma)) ->
  diff_added ma m = [].
Proof.
  induction m as [|[k v] m IH]; intros Hsub; [reflexivity|].
  simpl. destruct (obj_lookup_key_in k ma) as [v' ->].
  - apply Hsub. now left.
  - simpl. apply IH. intros k' Hk'. apply Hsub. now right.
Qed.

Lemma diff_doc_self (x : json) : canonical x = true -> diff_doc x x = [].
Proof.
  induction x as [ | b | s | s | l IHl | m IHm] using json_nested_ind;
    intros Hx; try reflexivity.
  - simpl. now destruct b.
  - simpl. now rewrite String.eqb_refl.
  - simpl. now rewrite String.eqb_refl.
  - cbn [diff_doc]. rewrite Nat.eqb_refl. apply diff_elems_self.
    pose proof (canonical_arr l Hx) as Hc.
    rewrite List.Forall_forall in IHl |- *.
    intros v Hv. apply IHl; [assumption | now apply Hc].
  - cbn [diff_doc]. destruct (canonical_obj m Hx) as [Hs Hv].
    rewrite (diff_fields_self m m []), (diff_added_self m m); try easy.
    + now apply sorted_NoDup.
    + rewrite List.Forall_forall in IHm |- *.
      intros [k v] Hin. apply (IHm (k, v) Hin). exact (Hv k v Hin).
Qed.

(** ** Canonical forms *)

Lemma sorted_keys_increasing (ks : list string) :
  StronglySorted String_as_OT.lt ks -> keys_increasing ks = true.
Proof.
  induction 1 as [|k ks Hs IH Hall]; [reflexivity|].
  destruct ks as [|k' ks']; [reflexivity|].
  change (keys_increasing (k :: k' :: ks'))
    with (str_ltb k k' && keys_increasing (k' :: ks')).
  rewrite IH, andb_true_r.
  apply str_ltb_lt. apply Forall_inv in Hall. exact Hall.
Qed.

Lemma obj_insert_in (k0 k : string) (v0 v : json)
    (m : list (string * json)) :
  In (k, v) (obj_insert k0 v0 m) -> (k, v) = (k0, v0) \/ In (k, v) m.
Proof.
  induction m as [|[k1 v1] m IH]; simpl.
  - intros [H | []]. now left.
  - destruct (String_as_OT.compare k0 k1); simpl.
    + intros [H | H]; [now left | right; now right].
    + intros [H | H]; [now left | now right].
    + intros [H | H]; [right; now left|].
      destruct (IH H) as [Heq | Hin]; [now left | right; now right].
Qed.

Lemma canon_members_canonical (rec : json -> json)
    (m acc : list (string * json)) :
  Forall (fun kv => canonical (rec kv.2) = true) m ->
  keys_sorted acc ->
  (forall k v, In (k, v) acc -> canonical v = true) ->
  keys_sorted (canon_members rec acc m)
  /\ forall k v, In (k, v) (canon_members rec acc m) -> canonical v = true.
Proof.
  intros Hall. revert acc.
  induction Hall as [|[k x] m Hx Hall IH]; intros acc Hs Hv; [now split|].
  simpl. apply IH.
  - now apply obj_insert_sorted.
  - intros k' v' Hin. destruct (obj_insert_in _ _ _ _ _ Hin) as [Heq | Hin'].
    + injection Heq as -> ->. exact Hx.
    + exact (Hv k' v' Hin').
Qed.

Lemma canon_canonical (v : json) : canonical (canon v) = true.
Proof.
  induction v as [ | b | s | s | l IHl | m IHm] using json_nested_ind;
    try reflexivity.
  - simpl. apply forallb_forall. intros x Hx.
    apply in_map_iff in Hx as (y & <- & Hy).
    rewrite List.Forall_forall in IHl. now apply IHl.
  - destruct (canon_members_canonical canon m []) as [Hs Hv].
    + exact IHm.
    + constructor.
    + intros k v [].
    + cbn [canon canonical]. apply andb_true_iff. split.
      * now apply sorted_keys_increasing.
      * apply forallb_forall. intros [k v] Hin. exact (Hv k v Hin).
Qed.

Lemma obj_insert_last (k : string) (v : json) (acc : list (string * json)) :
  Forall (fun k' => String_as_OT.lt k' k) (map fst acc) ->
  obj_insert k v acc = acc ++ [(k, v)].
Proof.
  induction acc as [|[k' v'] acc IH]; simpl; intros Hall; [reflexivity|].
  apply Forall_cons in Hall as [Hlt Hall].
  simpl in Hlt. destruct (String_as_OT.compare k k') eqn:Hcmp.
  - apply str_compare_eq in Hcmp. subst k'.
    exfalso. exact (str_lt_irrefl k Hlt).
  - exfalso. exact (str_lt_irrefl k (str_lt_trans k k' k Hcmp Hlt)).
  - now rewrite IH.
Qed.

Lemma canon_members_sorted (rec : json -> json)
    (m acc : list (string * json)) :
  Forall (fun kv => rec kv.2 = kv.2) m ->
  keys_sorted (acc ++ m) ->
  canon_members rec acc m = acc ++ m.
Proof.
  intros Hall. revert acc.
  induction Hall as [|[k x] m Hx Hall IH]; intros acc Hs.
  - now rewrite app_nil_r.
  - simpl in *. rewrite Hx. rewrite obj_insert_last.
    + rewrite IH; rewrite <- app_assoc; [reflexivity | exact Hs].
    + unfold keys_sorted in Hs. rewrite map_app in Hs. simpl in Hs.
      clear -Hs. induction acc as [|[k' v'] acc IHacc]; [constructor|].
      simpl in Hs. apply StronglySorted_inv in Hs as [Hs Hk'].
      constructor; [|now apply IHacc].
      rewrite List.Forall_forall in Hk'. apply Hk'.
      apply in_or_app. right. now left.
Qed.

Lemma canon_of_canonical (v : json) : canonical v = true -> canon v = v.
Proof.
  induction v as [ | b | s | s | l IHl | m IHm] using json_nested_ind;
    intros Hv; try reflexivity.
  - simpl. f_equal. pose proof (canonical_arr l Hv) as Hc.
    rewrite List.Forall_forall in IHl.
    rewrite <- (map_id l) at 2. apply map_ext_in.
    intros x Hx. apply IHl; [assumption | now apply Hc].
  - destruct (canonical_obj m Hv) as [Hs Hc].
    cbn [canon]. f_equal. apply (canon_members_sorted canon m []).
    + rewrite List.Forall_forall in IHm |- *.
      intros [k x] Hin. apply (IHm (k, x) Hin). exact (Hc k x Hin).
    + exact Hs.
Qed.

Lemma canon_idempotent (v : json) : canon (canon v) = canon v.
Proof. apply canon_of_canonical, canon_canonical. Qed.

(** C9: the patch codec is a function, so equal inputs give the same
    operations in the same order (and so do inputs that are deep-equal);
    for every document the diff with itself is empty; and applying the
    diff of [original] and [modified] to [original], in canonical
    structural form, gives a document that is deep-equal to [modified]. *)
Theorem C9_diff_deterministic_empty_on_equal_and_round_trip
    (original modified : json) :
  (forall original' modified',
     original' = original -> modified' = modified ->
     diff original' modified' = diff original modified)
  /\ (forall original' modified',
        deep_equal original' original -> deep_equal modified' modified ->
        diff original' modified' = diff original modified)
  /\ diff original original = []
  /\ exists patched,
       apply_patch (diff original modified) (canon original) = Some patched
       /\ deep_equal patched modified.
Proof.
  split; [now intros ? ? -> ->|]. split; [|split].
  - intros original' modified' Ho Hm. unfold diff. now rewrite Ho, Hm.
  - apply diff_doc_self, canon_canonical.
  - exists (canon modified). split.
    + apply diff_doc_apply; apply canon_canonical.
    + apply canon_idempotent.
Qed.

(** ** The admission response *)

Lemma override_resources_spec (E : Externals)
    (pod initializedPod cpod : Pod.t) :
  let overrides := PodSpec.Containers (Pod.Spec cpod) in
  let original := PodSpec.Containers (Pod.Spec initializedPod) in
  override_resources E pod initializedPod cpod
  = if existsb (fun cc => existsb (names_match cc) original) overrides
    then encode_patch E pod
           (Pod.set_Containers initializedPod
              (map (overridden overrides) original))
    else ("", None).
Proof.
  intros overrides original. unfold override_resources.
  fold overrides original.
  rewrite range_config_spec, fold_override_overridden. simpl.
  now destruct (existsb _ overrides).
Qed.

Lemma createPatch_absent (E : Externals) (annotation : string) (pod : Pod.t) :
  Pod.GetAnnotations pod !! (annotation +:+ ".podDefinition") = None ->
  createPatch E annotation pod = ("", None).
Proof. intros H. unfold createPatch; cbv zeta. now rewrite H. Qed.

Lemma createPatch_no_entry (E : Externals) (annotation : string)
    (pod : Pod.t) (v : string) (c : config) :
  Pod.GetAnnotations pod !! (annotation +:+ ".podDefinition") = Some v ->
  json_Unmarshal_config E v = inl c ->
  (forall p, p ∈ Pods c -> Pod.Name p <> Pod.Name pod) ->
  createPatch E annotation pod = ("", None).
Proof.
  intros Hv Hc Hno. unfold createPatch; cbv zeta. rewrite Hv, Hc.
  pose proof (range_Pods_none (Pod.Name pod) (Pods c) Pod.zero Hno) as Hf.
  destruct (range_Pods (Pod.Name pod) (Pods c) Pod.zero) as [cpod found].
  simpl in Hf. now rewrite Hf.
Qed.

Lemma createPatch_entry (E : Externals) (annotation : string)
    (pod : Pod.t) (v : string) (c : config) (cpod : Pod.t) :
  Pod.GetAnnotations pod !! (annotation +:+ ".podDefinition") = Some v ->
  json_Unmarshal_config E v = inl c ->
  range_Pods (Pod.Name pod) (Pods c) Pod.zero = (cpod, true) ->
  createPatch E annotation pod
  = override_resources E pod (Pod.DeepCopy pod) cpod.
Proof.
  intros Hv Hc Hr. unfold createPatch; cbv zeta. now rewrite Hv, Hc, Hr.
Qed.

Lemma createPatch_malformed (E : Externals) (annotation : string)
    (pod : Pod.t) (v : string) (err : error) :
  Pod.GetAnnotations pod !! (annotation +:+ ".podDefinition") = Some v ->
  json_Unmarshal_config E v = inr err ->
  createPatch E annotation pod = ("", Some err).
Proof. intros Hv Hc. unfold createPatch; cbv zeta. now rewrite Hv, Hc. Qed.

Lemma createPatch_nothing (E : Externals) (annotation : string)
    (pod : Pod.t) :
  nothing_to_patch E annotation pod ->
  createPatch E annotation pod = ("", None).
Proof.
  intros [H | [(v & c & Hv & Hc & Hno) | (v & c & cpod & Hv & Hc & Hr & Hno)]].
  - now apply createPatch_absent.
  - now apply (createPatch_no_entry E annotation pod v c).
  - rewrite (createPatch_entry E annotation pod v c cpod Hv Hc Hr).
    rewrite override_resources_spec.
    destruct (existsb _ _) eqn:Hex; [|reflexivity].
    apply existsb_match_iff in Hex as (cc & ic & Hcc & Hic & Heq).
    exfalso. exact (Hno cc ic Hcc Hic Heq).
Qed.

Lemma mutate_eligible (E : Externals) (annotation : string)
    (ar : AdmissionReview.t) (req : AdmissionRequest.t) (pod : Pod.t) :
  AdmissionReview.Request ar = Some req ->
  json_Unmarshal_Pod E (RawExtension.Raw (AdmissionRequest.Object req))
    = inl pod ->
  Pod.Namespace pod ∉ ignoredNamespaces ->
  mutate E annotation ar
  = match createPatch E annotation pod with
    | (_, Some err) =>
        Returned {| AdmissionResponse.UID := "";
                    AdmissionResponse.Allowed := false;
                    AdmissionResponse.Result :=
                      Some {| Status.Message := Error err |};
                    AdmissionResponse.Patch := "";
                    AdmissionResponse.PatchType := None |}
    | (patchBytes, None) =>
        Returned {| AdmissionResponse.UID := "";
                    AdmissionResponse.Allowed := true;
                    AdmissionResponse.Result := None;
                    AdmissionResponse.Patch := patchBytes;
                    AdmissionResponse.PatchType := Some PatchTypeJSONPatch |}
    end.
Proof.
  intros Hreq Hpod Hns. unfold mutate. rewrite Hreq, Hpod.
  apply mutationRequired_true_iff in Hns.
  unfold Pod.Namespace in Hns. now rewrite Hns.
Qed.

Lemma mutate_excluded (E : Externals) (annotation : string)
    (ar : AdmissionReview.t) (req : AdmissionRequest.t) (pod : Pod.t) :
  AdmissionReview.Request ar = Some req ->
  json_Unmarshal_Pod E (RawExtension.Raw (AdmissionRequest.Object req))
    = inl pod ->
  Pod.Namespace pod ∈ ignoredNamespaces ->
  mutate E annotation ar
  = Returned {| AdmissionResponse.UID := "";
                AdmissionResponse.Allowed := true;
                AdmissionResponse.Result := None;
                AdmissionResponse.Patch := "";
                AdmissionResponse.PatchType := None |}.
Proof.
  intros Hreq Hpod Hns. unfold mutate. rewrite Hreq, Hpod.
  apply mutationRequired_false_iff in Hns.
  unfold Pod.Namespace in Hns. now rewrite Hns.
Qed.

(** C1: for every Pod and matched override entry, the working copy gets,
    in every container whose name equals an override container's name
    (none, one or several containers, duplicates included), the resource
    requirements of the override container of that name, wholesale; the
    other containers, and the name and other fields of every container,
    are unchanged.  The working copy is the Pod with its metadata as it
    was and with these containers as its container slice, and it is this
    working copy that is diffed against the Pod.  When no container name
    matches, the result is the empty patch with no error, which is how the
    code says "no mutation". *)
Theorem C1_override_every_matching_container
    (E : Externals) (pod cpod : Pod.t) :
  let overrides := PodSpec.Containers (Pod.Spec cpod) in
  let original := PodSpec.Containers (Pod.Spec (Pod.DeepCopy pod)) in
  let working := map (overridden overrides) original in
  let workingCopy :=
    {| Pod.ObjectMeta := Pod.ObjectMeta pod;
       Pod.Spec := {| PodSpec.Containers := working |} |} in
  (range_config overrides (original, false)).1 = working
  /\ length working = length original
  /\ (forall i ic, original !! i = Some ic ->
        ((forall cc, cc ∈ overrides -> Container.Name cc <> Container.Name ic)
         /\ working !! i = Some ic)
        \/ (exists cc, cc ∈ overrides
              /\ Container.Name cc = Container.Name ic
              /\ last_override (Container.Name ic) overrides = Some cc
              /\ working !! i
                 = Some (Container.mk (Container.Name ic) (Container.Image ic)
                           (Container.Resources cc))))
  /\ ((forall cc ic, cc ∈ overrides -> ic ∈ original ->
         Container.Name cc <> Container.Name ic) ->
      override_resources E pod (Pod.DeepCopy pod) cpod = ("", None))
  /\ ((exists cc ic, cc ∈ overrides /\ ic ∈ original
         /\ Container.Name cc = Container.Name ic) ->
      override_resources E pod (Pod.DeepCopy pod) cpod
      = encode_patch E pod (Pod.set_Containers (Pod.DeepCopy pod) working))
  /\ original = PodSpec.Containers (Pod.Spec pod)
  /\ Pod.set_Containers (Pod.DeepCopy pod) working = workingCopy
  /\ PodSpec.Containers (Pod.Spec workingCopy) = working
  /\ Pod.ObjectMeta workingCopy = Pod.ObjectMeta pod
  /\ ((exists cc ic, cc ∈ overrides /\ ic ∈ original
         /\ Container.Name cc = Container.Name ic) ->
      override_resources E pod (Pod.DeepCopy pod) cpod
      = encode_patch E pod workingCopy).
Proof.
  intros overrides original working workingCopy.
  assert (Hstore : Pod.set_Containers (Pod.DeepCopy pod) working
                   = workingCopy) by reflexivity.
  assert (Hmatch : (exists cc ic, cc ∈ overrides /\ ic ∈ original
                      /\ Container.Name cc = Container.Name ic) ->
                   override_resources E pod (Pod.DeepCopy pod) cpod
                   = encode_patch E pod
                       (Pod.set_Containers (Pod.DeepCopy pod) working)).
  { intros Hex. rewrite override_resources_spec. fold overrides original.
    apply existsb_match_iff in Hex. now rewrite Hex. }
  split; [|split; [|split; [|split; [|split; [|split; [|split;
    [|split; [|split]]]]]]]].
  - rewrite range_config_spec. simpl. apply fold_override_overridden.
  - apply length_map.
  - intros i ic Hi. unfold working. rewrite list_lookup_fmap.
    unfold overridden.
    destruct (last_override (Container.Name ic) overrides) as [cc|] eqn:Hl.
    + right. exists cc.
      destruct (last_override_Some _ _ _ Hl) as [Hin Hn].
      repeat split; try assumption. rewrite Hi. simpl.
      now rewrite Hl.
    + left. split; [now apply last_override_None|].
      rewrite Hi. simpl. now rewrite Hl.
  - intros Hno. rewrite override_resources_spec. fold overrides original.
    destruct (existsb _ overrides) eqn:Hex; [|reflexivity].
    apply existsb_match_iff in Hex as (cc & ic & Hcc & Hic & Heq).
    exfalso. exact (Hno cc ic Hcc Hic Heq).
  - exact Hmatch.
  - reflexivity.
  - exact Hstore.
  - reflexivity.
  - reflexivity.
  - intros Hex. rewrite <- Hstore. now apply Hmatch.
Qed.

(** C2: with the annotation present and decoded, [createPatch] works on
    the first entry of the override specification whose name equals the
    Pod's name; when no entry has that name the result is no mutation
    (empty patch, no error). *)
Theorem C2_first_matching_pod_entry
    (E : Externals) (annotation : string) (pod : Pod.t) (v : string)
    (c : config)
    (Hv : Pod.GetAnnotations pod !! (annotation +:+ ".podDefinition") = Some v)
    (Hc : json_Unmarshal_config E v = inl c) :
  ((forall p, p ∈ Pods c -> Pod.Name p <> Pod.Name pod) ->
   createPatch E annotation pod = ("", None))
  /\ (forall before cpod after,
        Pods c = before ++ cpod :: after ->
        (forall q, q ∈ before -> Pod.Name q <> Pod.Name pod) ->
        Pod.Name cpod = Pod.Name pod ->
        range_Pods (Pod.Name pod) (Pods c) Pod.zero = (cpod, true)
        /\ createPatch E annotation pod
           = override_resources E pod (Pod.DeepCopy pod) cpod).
Proof.
  split.
  - now apply (createPatch_no_entry E annotation pod v c).
  - intros before cpod after Hsplit Hno Hname.
    assert (Hr : range_Pods (Pod.Name pod) (Pods c) Pod.zero = (cpod, true))
      by (rewrite Hsplit; now apply range_Pods_first).
    split; [assumption|].
    now apply (createPatch_entry E annotation pod v c cpod).
Qed.

(** C3: the policy check is a total boolean function that is false exactly
    on the namespaces of the excluded list, which holds the system and the
    public namespace; for a Pod of an excluded namespace [mutate] answers
    allowed, with no patch, no patch type and no message, whatever the
    Pod's annotations are. *)
Theorem C3_excluded_namespace_is_allowed_unchanged :
  ignoredNamespaces = ["kube-system"; "kube-public"]
  /\ (forall ignoredList metadata,
        mutationRequired ignoredList metadata
        = negb (bool_decide (ObjectMeta.Namespace metadata ∈ ignoredList)))
  /\ (forall E annotation ar req pod,
        AdmissionReview.Request ar = Some req ->
        json_Unmarshal_Pod E (RawExtension.Raw (AdmissionRequest.Object req))
          = inl pod ->
        Pod.Namespace pod ∈ ignoredNamespaces ->
        mutate E annotation ar
        = Returned {| AdmissionResponse.UID := "";
                      AdmissionResponse.Allowed := true;
                      AdmissionResponse.Result := None;
                      AdmissionResponse.Patch := "";
                      AdmissionResponse.PatchType := None |}).
Proof.
  split; [reflexivity|]. split.
  - intros ignoredList metadata. case_bool_decide as Hin; simpl.
    + now apply mutationRequired_false_iff.
    + now apply mutationRequired_true_iff.
  - intros E annotation ar req pod. apply mutate_excluded.
Qed.

(** C4: when the annotation is present and its value fails to decode,
    [createPatch] returns the decode error itself, and [mutate] (for a Pod
    that the namespace policy lets through) returns normally with a
    response whose status message is the text of that error, which is not
    empty when the decoder's diagnostic is not; no patch is attached. *)
Theorem C4_malformed_annotation_is_reported
    (E : Externals) (annotation : string) (pod : Pod.t) (v : string)
    (err : error)
    (Hv : Pod.GetAnnotations pod !! (annotation +:+ ".podDefinition") = Some v)
    (Hc : json_Unmarshal_config E v = inr err)
    (Hdiag : Error err <> "") :
  createPatch E annotation pod = ("", Some err)
  /\ forall ar req,
       AdmissionReview.Request ar = Some req ->
       json_Unmarshal_Pod E (RawExtension.Raw (AdmissionRequest.Object req))
         = inl pod ->
       Pod.Namespace pod ∉ ignoredNamespaces ->
       exists message,
         mutate E annotation ar
         = Returned {| AdmissionResponse.UID := "";
                       AdmissionResponse.Allowed := false;
                       AdmissionResponse.Result :=
                         Some {| Status.Message := message |};
                       AdmissionResponse.Patch := "";
                       AdmissionResponse.PatchType := None |}
         /\ message = Error err /\ message <> "".
Proof.
  pose proof (createPatch_malformed E annotation pod v err Hv Hc) as Hcp.
  split; [assumption|].
  intros ar req Hreq Hpod Hns. exists (Error err).
  rewrite (mutate_eligible E annotation ar req pod Hreq Hpod Hns), Hcp.
  now repeat split.
Qed.

(** C5 (the code at the failing input): when [createPatch] finds nothing
    to change (annotation absent, no entry of the Pod's name, or no
    container of a matching name), [mutate] still attaches the patch type
    [JSONPatch], next to an empty patch. *)
Theorem C5_patch_type_attached_without_patch
    (E : Externals) (annotation : string) (ar : AdmissionReview.t)
    (req : AdmissionRequest.t) (pod : Pod.t)
    (Hreq : AdmissionReview.Request ar = Some req)
    (Hpod : json_Unmarshal_Pod E
              (RawExtension.Raw (AdmissionRequest.Object req)) = inl pod)
    (Hns : Pod.Namespace pod ∉ ignoredNamespaces)
    (Hnothing : nothing_to_patch E annotation pod) :
  mutate E annotation ar
  = Returned {| AdmissionResponse.UID := "";
                AdmissionResponse.Allowed := true;
                AdmissionResponse.Result := None;
                AdmissionResponse.Patch := "";
                AdmissionResponse.PatchType := Some "JSONPatch" |}.
Proof.
  rewrite (mutate_eligible E annotation ar req pod Hreq Hpod Hns).
  now rewrite (createPatch_nothing E annotation pod Hnothing).
Qed.

(** C6 (amended): when the envelope carries a request and the embedded
    object decodes, [mutate] returns a response, and it has allowed = true
    exactly when the Pod's namespace is excluded or [createPatch] returns
    no error; when [createPatch] fails (malformed annotation, or a failure
    to encode the patch) allowed is left unset and the status message
    carries the error text. *)
Theorem C6_allowed_unless_createPatch_fails
    (E : Externals) (annotation : string) (ar : AdmissionReview.t)
    (req : AdmissionRequest.t) (pod : Pod.t)
    (Hreq : AdmissionReview.Request ar = Some req)
    (Hpod : json_Unmarshal_Pod E
              (RawExtension.Raw (AdmissionRequest.Object req)) = inl pod) :
  exists resp,
    mutate E annotation ar = Returned resp
    /\ (AdmissionResponse.Allowed resp = true
        <-> Pod.Namespace pod ∈ ignoredNamespaces
            \/ (createPatch E annotation pod).2 = None)
    /\ (AdmissionResponse.Allowed resp = false ->
        exists err,
          (createPatch E annotation pod).2 = Some err
          /\ AdmissionResponse.Result resp
             = Some {| Status.Message := Error err |}).
Proof.
  destruct (decide (Pod.Namespace pod ∈ ignoredNamespaces)) as [Hin | Hns].
  - rewrite (mutate_excluded E annotation ar req pod Hreq Hpod Hin).
    eexists. split; [reflexivity|]. simpl. split; [tauto | discriminate].
  - rewrite (mutate_eligible E annotation ar req pod Hreq Hpod Hns).
    destruct (createPatch E annotation pod) as [patchBytes [err|]]; simpl;
      eexists; (split; [reflexivity|]); simpl.
    + split; [|intros _; now exists err].
      split; [discriminate | intros [? | ?]; [contradiction | discriminate]].
    + split; [tauto | discriminate].
Qed.

(** C7 (amended): a failure to locate an entry of the Pod's name or a
    container of a matching name (like an absent annotation) is treated as
    no mutation: the response is allowed, carries no status message and no
    patch bytes.  A malformed annotation is a failure: allowed is unset, the
    status message is the decode error, there is no patch and no patch
    type. *)
Theorem C7_not_found_is_routine_malformed_is_failure
    (E : Externals) (annotation : string) (ar : AdmissionReview.t)
    (req : AdmissionRequest.t) (pod : Pod.t)
    (Hreq : AdmissionReview.Request ar = Some req)
    (Hpod : json_Unmarshal_Pod E
              (RawExtension.Raw (AdmissionRequest.Object req)) = inl pod)
    (Hns : Pod.Namespace pod ∉ ignoredNamespaces) :
  (nothing_to_patch E annotation pod ->
   exists resp,
     mutate E annotation ar = Returned resp
     /\ AdmissionResponse.Allowed resp = true
     /\ AdmissionResponse.Result resp = None
     /\ AdmissionResponse.Patch resp = "")
  /\ (forall v err,
        Pod.GetAnnotations pod !! (annotation +:+ ".podDefinition") = Some v ->
        json_Unmarshal_config E v = inr err ->
        mutate E annotation ar
        = Returned {| AdmissionResponse.UID := "";
                      AdmissionResponse.Allowed := false;
                      AdmissionResponse.Result :=
                        Some {| Status.Message := Error err |};
                      AdmissionResponse.Patch := "";
                      AdmissionResponse.PatchType := None |}).
Proof.
  rewrite (mutate_eligible E annotation ar req pod Hreq Hpod Hns). split.
  - intros Hnothing.
    rewrite (createPatch_nothing E annotation pod Hnothing).
    eexists. split; [reflexivity|]. now simpl.
  - intros v err Hv Hc.
    now rewrite (createPatch_malformed E annotation pod v err Hv Hc).
Qed.

(** ** The envelope *)

Lemma mutate_returns (E : Externals) (annotation : string)
    (ar : AdmissionReview.t) (req : AdmissionRequest.t) :
  AdmissionReview.Request ar = Some req ->
  exists resp, mutate E annotation ar = Returned resp.
Proof.
  intros Hreq. unfold mutate. rewrite Hreq.
  destruct (json_Unmarshal_Pod E _) as [pod | err]; [|eauto].
  destruct (negb _); [eauto|].
  destruct (createPatch E annotation pod) as [patchBytes [err|]]; eauto.
Qed.

Lemma serve_decode_stage (E : Externals) (annotation : string)
    (r : Request.t) (body : string) :
  reaches_decode r body ->
  serve E annotation r
  = let '(ar, err) := deserializer_Decode E body in
    match
      match err with
      | Some err =>
          Returned {| AdmissionResponse.UID := "";
                      AdmissionResponse.Allowed := false;
                      AdmissionResponse.Result :=
                        Some {| Status.Message := Error err |};
                      AdmissionResponse.Patch := "";
                      AdmissionResponse.PatchType := None |}
      | None => mutate E annotation ar
      end
    with
    | Panicked reason => Panicked reason
    | Returned admissionResponse =>
        Returned (Write
          {| AdmissionReview.Request := None;
             AdmissionReview.Response :=
               Some match AdmissionReview.Request ar with
                    | Some req =>
                        AdmissionResponse.set_UID admissionResponse
                          (AdmissionRequest.UID req)
                    | None => admissionResponse
                    end |})
    end.
Proof.
  intros (Hbody & Hne & Hct). unfold serve. rewrite Hbody, Hct. simpl.
  destruct body as [|a body]; [congruence|]. reflexivity.
Qed.

(** C8 (amended): for every request that reaches the envelope decode
    stage, and whether or not the decoder reports an error, when the
    envelope that the decoder leaves carries a request object [serve]
    produces a response and its uid is the uid of that request; when
    decoding failed and left no request object, the response's uid is
    empty. *)
Theorem C8_response_echoes_request_uid
    (E : Externals) (annotation : string) (r : Request.t) (body : string)
    (ar : AdmissionReview.t) (err : option error)
    (Hreach : reaches_decode r body)
    (Hdec : deserializer_Decode E body = (ar, err)) :
  (forall req, AdmissionReview.Request ar = Some req ->
     exists resp,
       serve E annotation r
       = Returned (Write {| AdmissionReview.Request := None;
                            AdmissionReview.Response := Some resp |})
       /\ AdmissionResponse.UID resp = AdmissionRequest.UID req)
  /\ (AdmissionReview.Request ar = None -> is_Some err ->
      exists resp,
        serve E annotation r
        = Returned (Write {| AdmissionReview.Request := None;
                            AdmissionReview.Response := Some resp |})
        /\ AdmissionResponse.UID resp = "").
Proof.
  rewrite (serve_decode_stage E annotation r body Hreach), Hdec. split.
  - intros req Hreq. rewrite Hreq. destruct err as [e|].
    + eexists. split; reflexivity.
    + destruct (mutate_returns E annotation ar req Hreq) as [resp ->].
      eexists. split; reflexivity.
  - intros Hnone [e ->]. rewrite Hnone. eexists. split; reflexivity.
Qed.

(** C10: [mutate] reads the fields of the request object with no presence
    check.  For an envelope without a request object it panics with a nil
    dereference, and so does [serve] when that envelope decoded without
    error: no response is produced.  With a request object present
    [mutate] always returns a response. *)
Theorem C10_absent_request_is_a_nil_dereference
    (E : Externals) (annotation : string) (ar : AdmissionReview.t) :
  (AdmissionReview.Request ar = None ->
   mutate E annotation ar = Panicked nil_dereference
   /\ forall r body,
        reaches_decode r body ->
        deserializer_Decode E body = (ar, None) ->
        serve E annotation r = Panicked nil_dereference)
  /\ (forall req, AdmissionReview.Request ar = Some req ->
      exists resp, mutate E annotation ar = Returned resp).
Proof.
  split.
  - intros Hnone.
    assert (Hm : mutate E annotation ar = Panicked nil_dereference)
      by (unfold mutate; now rewrite Hnone).
    split; [assumption|]. intros r body Hreach Hdec.
    now rewrite (serve_decode_stage E annotation r body Hreach), Hdec, Hm.
  - apply mutate_returns.
Qed.

(** * The theorems at concrete requests *)

Import Reference Fixture.

(** A string is none of the strings of a literal list. *)
Ltac not_in_literal :=
  let H := fresh "H" in
  intros H;
  repeat (apply elem_of_cons in H as [H | H]; [discriminate H|]);
  inversion H.

Lemma C1_witness :
  (range_config (PodSpec.Containers (Pod.Spec duplicated_entry))
     (PodSpec.Containers (Pod.Spec duplicated_pod), false)).1
  = [Container.mk "solace" "solace-pubsub" (resources "500m" "2Gi");
     Container.mk "exporter" "prom" (resources "0.1" "64Mi");
     Container.mk "solace" "solace-standby" (resources "500m" "2Gi")]
  /\ override_resources E duplicated_pod (Pod.DeepCopy duplicated_pod)
       duplicated_entry
     = encode_patch E duplicated_pod
         {| Pod.ObjectMeta := Pod.ObjectMeta duplicated_pod;
            Pod.Spec :=
              {| PodSpec.Containers :=
                   [Container.mk "solace" "solace-pubsub"
                      (resources "500m" "2Gi");
                    Container.mk "exporter" "prom" (resources "0.1" "64Mi");
                    Container.mk "solace" "solace-standby"
                      (resources "500m" "2Gi")] |} |}
  /\ override_resources E duplicated_pod (Pod.DeepCopy duplicated_pod)
       duplicated_entry
     = (duplicated_patch, None).
Proof.
  pose proof (C1_override_every_matching_container
                E duplicated_pod duplicated_entry) as H.
  cbv zeta in H.
  destruct H as (Hloops & _ & _ & _ & _ & _ & _ & _ & _ & Hpatch).
  assert (Hmatch : exists cc ic,
             cc ∈ PodSpec.Containers (Pod.Spec duplicated_entry)
             /\ ic ∈ PodSpec.Containers
                      (Pod.Spec (Pod.DeepCopy duplicated_pod))
             /\ Container.Name cc = Container.Name ic).
  { eexists. eexists. split; [apply elem_of_cons; left; reflexivity|].
    split; [apply elem_of_cons; left; reflexivity | reflexivity]. }
  specialize (Hpatch Hmatch).
  split; [|split].
  - etransitivity; [exact Hloops|]. vm_compute. reflexivity.
  - etransitivity; [exact Hpatch|]. vm_compute. reflexivity.
  - etransitivity; [exact Hpatch|]. vm_compute. reflexivity.
Defined.

Lemma C2_witness :
  Pod.GetAnnotations pod_c !! key = Some ab_annotation
  /\ json_Unmarshal_config E ab_annotation
     = inl (mkConfig [entry_named "a"; entry_named "b"])
  /\ createPatch E defaultAnnotation pod_c = ("", None).
Proof.
  assert (Hv : Pod.GetAnnotations pod_c
               !! (defaultAnnotation +:+ ".podDefinition")
               = Some ab_annotation) by (vm_compute; reflexivity).
  assert (Hc : json_Unmarshal_config E ab_annotation
               = inl (mkConfig [entry_named "a"; entry_named "b"]))
    by (vm_compute; reflexivity).
  split; [exact Hv|]. split; [exact Hc|].
  apply (proj1 (C2_first_matching_pod_entry
                  E defaultAnnotation pod_c ab_annotation _ Hv Hc)).
  intros p Hp. simpl in Hp.
  apply elem_of_cons in Hp as [-> | Hp]; [discriminate|].
  apply elem_of_cons in Hp as [-> | Hp]; [discriminate|].
  inversion Hp.
Defined.

Lemma C3_witness :
  Pod.Namespace system_pod ∈ ignoredNamespaces
  /\ Pod.GetAnnotations system_pod !! key = Some "not json"
  /\ mutate E defaultAnnotation (review_of "9f1c" system_pod)
     = Returned {| AdmissionResponse.UID := "";
                   AdmissionResponse.Allowed := true;
                   AdmissionResponse.Result := None;
                   AdmissionResponse.Patch := "";
                   AdmissionResponse.PatchType := None |}.
Proof.
  assert (Hns : Pod.Namespace system_pod ∈ ignoredNamespaces)
    by (apply elem_of_cons; left; reflexivity).
  split; [exact Hns|]. split; [vm_compute; reflexivity|].
  apply (proj2 (proj2 C3_excluded_namespace_is_allowed_unchanged)
           E defaultAnnotation _ (request_of "9f1c" system_pod) system_pod).
  - reflexivity.
  - vm_compute. reflexivity.
  - exact Hns.
Defined.

Lemma C4_witness :
  json_Unmarshal_config E "not json" = inr syntax_error
  /\ createPatch E defaultAnnotation malformed_pod = ("", Some syntax_error).
Proof.
  assert (Hc : json_Unmarshal_config E "not json" = inr syntax_error)
    by (vm_compute; reflexivity).
  split; [exact Hc|].
  apply (C4_malformed_annotation_is_reported
           E defaultAnnotation malformed_pod "not json" syntax_error).
  - vm_compute. reflexivity.
  - exact Hc.
  - discriminate.
Defined.

Lemma C5_witness :
  Pod.GetAnnotations plain_pod = ∅
  /\ mutate E defaultAnnotation (review_of "41d7" plain_pod)
     = Returned {| AdmissionResponse.UID := "";
                   AdmissionResponse.Allowed := true;
                   AdmissionResponse.Result := None;
                   AdmissionResponse.Patch := "";
                   AdmissionResponse.PatchType := Some "JSONPatch" |}.
Proof.
  split; [reflexivity|].
  apply (C5_patch_type_attached_without_patch
           E defaultAnnotation _ (request_of "41d7" plain_pod) plain_pod).
  - reflexivity.
  - vm_compute. reflexivity.
  - not_in_literal.
  - left. vm_compute. reflexivity.
Defined.

(** C6, counterexample: the envelope decodes, the embedded Pod
    decodes, its annotation is cut short, and the response is not
    allowed. *)
Lemma C6_counterexample :
  Pod.GetAnnotations truncated_pod !! key = Some (text "{'Pods':[{'metadata':")
  /\ deserializer_Decode E (review_body "c0de" truncated_pod)
     = (review_of "c0de" truncated_pod, None)
  /\ json_Unmarshal_Pod E
       (RawExtension.Raw
          (AdmissionRequest.Object (request_of "c0de" truncated_pod)))
     = inl truncated_pod
  /\ mutate E defaultAnnotation (review_of "c0de" truncated_pod)
     = Returned {| AdmissionResponse.UID := "";
                   AdmissionResponse.Allowed := false;
                   AdmissionResponse.Result :=
                     Some {| Status.Message := Error syntax_error |};
                   AdmissionResponse.Patch := "";
                   AdmissionResponse.PatchType := None |}.
Proof.
  split; [vm_compute; reflexivity|]. split; [vm_compute; reflexivity|].
  split; vm_compute; reflexivity.
Defined.

Lemma C6_witness :
  exists resp,
    mutate E defaultAnnotation (review_of "c0de" truncated_pod)
    = Returned resp
    /\ (AdmissionResponse.Allowed resp = true
        <-> Pod.Namespace truncated_pod ∈ ignoredNamespaces
            \/ (createPatch E defaultAnnotation truncated_pod).2 = None)
    /\ (AdmissionResponse.Allowed resp = false ->
        exists err,
          (createPatch E defaultAnnotation truncated_pod).2 = Some err
          /\ AdmissionResponse.Result resp
             = Some {| Status.Message := Error err |}).
Proof.
  apply (C6_allowed_unless_createPatch_fails
           E defaultAnnotation _ (request_of "c0de" truncated_pod)
           truncated_pod).
  - reflexivity.
  - vm_compute. reflexivity.
Defined.

(** C7, counterexample: the annotation is not JSON and the response
    is a failure: not allowed, with a status message. *)
Lemma C7_counterexample :
  Pod.GetAnnotations unterminated_pod !! key = Some "{"
  /\ json_Unmarshal_config E "{" = inr syntax_error
  /\ mutate E defaultAnnotation (review_of "7a11" unterminated_pod)
     = Returned {| AdmissionResponse.UID := "";
                   AdmissionResponse.Allowed := false;
                   AdmissionResponse.Result :=
                     Some {| Status.Message := Error syntax_error |};
                   AdmissionResponse.Patch := "";
                   AdmissionResponse.PatchType := None |}
  /\ mutate E defaultAnnotation (review_of "7a11" unterminated_pod)
     <> mutate E defaultAnnotation (review_of "7a11" plain_pod).
Proof.
  split; [vm_compute; reflexivity|]. split; [vm_compute; reflexivity|].
  split; [vm_compute; reflexivity|]. vm_compute. discriminate.
Defined.

Lemma C7_witness :
  json_Unmarshal_config E solace_annotation
  = inl (mkConfig
           [Pod.mk (ObjectMeta.mk "test-run-solace-2" "" ∅)
              (PodSpec.mk [Container.mk "solace" ""
                             (resources "500m" "2Gi")])])
  /\ exists resp,
       mutate E defaultAnnotation (review_of "7a11" other_pod) = Returned resp
       /\ AdmissionResponse.Allowed resp = true
       /\ AdmissionResponse.Result resp = None
       /\ AdmissionResponse.Patch resp = "".
Proof.
  assert (Hc : json_Unmarshal_config E solace_annotation
               = inl (mkConfig
                        [Pod.mk (ObjectMeta.mk "test-run-solace-2" "" ∅)
                           (PodSpec.mk [Container.mk "solace" ""
                                          (resources "500m" "2Gi")])]))
    by (vm_compute; reflexivity).
  split; [exact Hc|].
  apply (C7_not_found_is_routine_malformed_is_failure
           E defaultAnnotation _ (request_of "7a11" other_pod) other_pod).
  - reflexivity.
  - vm_compute. reflexivity.
  - not_in_literal.
  - right. left. eexists. eexists. split; [vm_compute; reflexivity|].
    split; [exact Hc|].
    intros p Hp. simpl in Hp.
    apply elem_of_cons in Hp as [-> | Hp]; [discriminate | inversion Hp].
Defined.

(** C8, counterexample: the review of uid [705ab4f5] arrives with a
    stray brace after it; it reaches the decode stage, the decoder fails
    and leaves no request object, and the response carries an empty uid. *)
Lemma C8_counterexample :
  deserializer_Decode E (review_body "705ab4f5" readme_pod)
  = (review_of "705ab4f5" readme_pod, None)
  /\ reaches_decode (post garbled_body) garbled_body
  /\ deserializer_Decode E garbled_body
     = (AdmissionReview.zero, Some syntax_error)
  /\ serve E defaultAnnotation (post garbled_body)
     = Returned (Write
         {| AdmissionReview.Request := None;
            AdmissionReview.Response :=
              Some {| AdmissionResponse.UID := "";
                      AdmissionResponse.Allowed := false;
                      AdmissionResponse.Result :=
                        Some {| Status.Message := Error syntax_error |};
                      AdmissionResponse.Patch := "";
                      AdmissionResponse.PatchType := None |} |})
  /\ "" <> AdmissionRequest.UID (request_of "705ab4f5" readme_pod).
Proof.
  split; [vm_compute; reflexivity|]. split.
  - split; [reflexivity|]. split; [|vm_compute; reflexivity].
    intros H. vm_compute in H. discriminate H.
  - split; [vm_compute; reflexivity|].
    split; [vm_compute; reflexivity | discriminate].
Defined.

Lemma C8_witness :
  reaches_decode (post (review_body "705ab4f5" readme_pod))
    (review_body "705ab4f5" readme_pod)
  /\ deserializer_Decode E (review_body "705ab4f5" readme_pod)
     = (review_of "705ab4f5" readme_pod, None)
  /\ exists resp,
       serve E defaultAnnotation (post (review_body "705ab4f5" readme_pod))
       = Returned (Write {| AdmissionReview.Request := None;
                            AdmissionReview.Response := Some resp |})
       /\ AdmissionResponse.UID resp = "705ab4f5".
Proof.
  assert (Hreach : reaches_decode (post (review_body "705ab4f5" readme_pod))
                     (review_body "705ab4f5" readme_pod)).
  { split; [reflexivity|]. split; [|vm_compute; reflexivity].
    intros H. vm_compute in H. discriminate H. }
  assert (Hdec : deserializer_Decode E (review_body "705ab4f5" readme_pod)
                 = (review_of "705ab4f5" readme_pod, None))
    by (vm_compute; reflexivity).
  split; [exact Hreach|]. split; [exact Hdec|].
  apply (proj1 (C8_response_echoes_request_uid
                  E defaultAnnotation _ _ _ _ Hreach Hdec)
           (request_of "705ab4f5" readme_pod)).
  reflexivity.
Defined.

Lemma C9_witness :
  diff original_doc original_doc = []
  /\ diff original_doc modified_doc
     = [Remove [Key "metadata"; Key "uid"];
        Add [Key "metadata"; Key "labels"] (JObj []);
        Replace [Key "spec"; Key "containers"; Idx 0; Key "resources";
                 Key "requests"; Key "cpu"] (JStr "500m");
        Add [Key "spec"; Key "containers"; Idx 0; Key "resources";
             Key "limits"] (JObj [("cpu", JStr "1")])]
  /\ exists patched,
       apply_patch (diff original_doc modified_doc) (canon original_doc)
       = Some patched
       /\ deep_equal patched modified_doc.
Proof.
  destruct (C9_diff_deterministic_empty_on_equal_and_round_trip
              original_doc modified_doc) as (_ & _ & Hself & Hround).
  split; [exact Hself|]. split; [reflexivity | exact Hround].
Defined.

Lemma C10_witness :
  reaches_decode (post "{}") "{}"
  /\ deserializer_Decode E "{}" = (AdmissionReview.zero, None)
  /\ mutate E defaultAnnotation AdmissionReview.zero
     = Panicked nil_dereference
  /\ serve E defaultAnnotation (post "{}") = Panicked nil_dereference.
Proof.
  assert (Hreach : reaches_decode (post "{}") "{}").
  { split; [reflexivity|]. split; [discriminate | vm_compute; reflexivity]. }
  assert (Hdec : deserializer_Decode E "{}" = (AdmissionReview.zero, None))
    by (vm_compute; reflexivity).
  split; [exact Hreach|]. split; [exact Hdec|].
  destruct (proj1 (C10_absent_request_is_a_nil_dereference
                     E defaultAnnotation AdmissionReview.zero) eq_refl)
    as [Hm Hs].
  split; [exact Hm|]. exact (Hs _ _ Hreach Hdec).
Defined.

(** ** Further runs of the webhook *)

(** Of two entries of the Pod's name the first one is taken. *)
Example first_entry_wins :
  let first :=
    Pod.mk (ObjectMeta.mk "a" "" ∅)
      (PodSpec.mk [Container.mk "solace" "" (resources "1" "1Gi")]) in
  let second :=
    Pod.mk (ObjectMeta.mk "a" "" ∅)
      (PodSpec.mk [Container.mk "solace" "" (resources "2" "2Gi")]) in
  range_Pods "a" [entry_named "b"; first; second] Pod.zero = (first, true).
Proof. reflexivity. Qed.

(** When no entry matches, [cpod] is left at the last entry visited. *)
Example no_entry_leaves_last :
  range_Pods "c" [entry_named "a"; entry_named "b"] Pod.zero
  = (entry_named "b", false).
Proof. reflexivity. Qed.

(** The scenario of the README: the Pod [test-run-solace-2] carries the
    annotation that overrides the requests of its container [solace]. *)
Example readme_scenario :
  serve E defaultAnnotation (post (review_body "705ab4f5" readme_pod))
  = Returned (Write
      {| AdmissionReview.Request := None;
         AdmissionReview.Response :=
           Some {| AdmissionResponse.UID := "705ab4f5";
                   AdmissionResponse.Allowed := true;
                   AdmissionResponse.Result := None;
                   AdmissionResponse.Patch :=
                     text ("[{'op':'replace','path':"
                           +:+ "'/spec/containers/0/resources/requests/cpu',"
                           +:+ "'value':'500m'},{'op':'replace','path':"
                           +:+ "'/spec/containers/0/resources/requests/memory',"
                           +:+ "'value':'2Gi'}]");
                   AdmissionResponse.PatchType := Some "JSONPatch" |} |}).
Proof. vm_compute. reflexivity. Qed.

(** A body that is empty, and a content type that is not JSON, are
    refused before the envelope is decoded. *)
Example refused_before_decode :
  serve E defaultAnnotation (Request.mk None ∅)
  = Returned (http_Error "empty body" 400)
  /\ serve E defaultAnnotation
       (Request.mk (Some "{}") {[ "Content-Type" := ["text/plain"] ]})
     = Returned (http_Error "invalid Content-Type, expect `application/json`"
                   415).
Proof. split; vm_compute; reflexivity. Qed.

(** * Further properties of the webhook *)

(** ** The container loops *)

Lemma overridden_Name (overrides : list Container.t) (ic : Container.t) :
  Container.Name (overridden overrides ic) = Container.Name ic.
Proof.
  unfold overridden.
  now destruct (last_override (Container.Name ic) overrides).
Qed.

Lemma overridden_idempotent (overrides : list Container.t)
    (ic : Container.t) :
  overridden overrides (overridden overrides ic) = overridden overrides ic.
Proof.
  unfold overridden at 1. rewrite overridden_Name.
  unfold overridden.
  now destruct (last_override (Container.Name ic) overrides).
Qed.

Lemma range_config_overridden (overrides l : list Container.t)
    (found : bool) :
  range_config overrides (l, found)
  = (map (overridden overrides) l,
     found || existsb (fun cc => existsb (names_match cc) l) overrides).
Proof. now rewrite range_config_spec, fold_override_overridden. Qed.

Lemma existsb_names_match_overridden (overrides l : list Container.t)
    (cc : Container.t) :
  existsb (names_match cc) (map (overridden overrides) l)
  = existsb (names_match cc) l.
Proof.
  induction l as [|ic l IH]; simpl; [reflexivity|].
  rewrite IH. unfold names_match at 1. now rewrite overridden_Name.
Qed.

Lemma existsb_pointwise {A : Type} (f g : A -> bool) (l : list A) :
  (forall x, f x = g x) -> existsb f l = existsb g l.
Proof.
  intros Hfg. induction l as [|x l IH]; simpl; [reflexivity|].
  now rewrite Hfg, IH.
Qed.

(** X1: the container loops are idempotent: run again on the working copy
    that they produced, they leave every container as it is and report the
    same [found]. *)
Theorem X1_container_loops_idempotent
    (overrides original : list Container.t) :
  let st := range_config overrides (original, false) in
  range_config overrides (st.1, false) = st.
Proof.
  cbv zeta. rewrite !range_config_overridden. simpl. f_equal.
  - rewrite map_map. apply map_ext. apply overridden_idempotent.
  - apply existsb_pointwise. intros cc.
    apply existsb_names_match_overridden.
Qed.

Lemma find_app_first {A : Type} (f : A -> bool) (l1 l2 : list A) :
  find f (l1 ++ l2)
  = match find f l1 with
    | Some x => Some x
    | None => find f l2
    end.
Proof.
  induction l1 as [|x l1 IH]; simpl; [reflexivity|].
  now destruct (f x).
Qed.

Lemma last_override_app (name : string) (l1 l2 : list Container.t) :
  last_override name (l1 ++ l2)
  = match last_override name l2 with
    | Some cc => Some cc
    | None => last_override name l1
    end.
Proof. unfold last_override. now rewrite rev_app_distr, find_app_first. Qed.

Lemma last_override_absent (name : string) (overrides : list Container.t) :
  (forall cc, cc ∈ overrides -> Container.Name cc <> name) ->
  last_override name overrides = None.
Proof.
  intros Hno. destruct (last_override name overrides) as [cc|] eqn:Hl;
    [|reflexivity].
  destruct (last_override_Some _ _ _ Hl) as [Hin Hname].
  exfalso. exact (Hno cc Hin Hname).
Qed.

Lemma last_override_superseded (name : string) (cc cc' : Container.t)
    (after : list Container.t) :
  cc' ∈ after ->
  Container.Name cc' = Container.Name cc ->
  last_override name (cc :: after) = last_override name after.
Proof.
  intros Hin Hname. change (cc :: after) with ([cc] ++ after).
  rewrite last_override_app.
  destruct (last_override name after) as [c|] eqn:Hl; [reflexivity|].
  unfold last_override. simpl.
  destruct (String.eqb_spec (Container.Name cc) name) as [Heq | _];
    [|reflexivity].
  exfalso. apply (last_override_None _ _ Hl cc' Hin). congruence.
Qed.

(** X2: an override container that is followed, in the entry, by another
    one of the same name has no effect: the loops give the same working
    copy and the same [found] without it. *)
Theorem X2_later_override_supersedes
    (before after original : list Container.t) (cc cc' : Container.t)
    (found : bool)
    (Hlater : cc' ∈ after)
    (Hname : Container.Name cc' = Container.Name cc) :
  range_config (before ++ cc :: after) (original, found)
  = range_config (before ++ after) (original, found).
Proof.
  rewrite !range_config_overridden. f_equal.
  - apply map_ext. intros ic. unfold overridden.
    rewrite !last_override_app.
    now rewrite (last_override_superseded _ cc cc' after Hlater Hname).
  - f_equal. rewrite !existsb_app. f_equal. simpl.
    destruct (existsb (names_match cc) original) eqn:Hcc; [|reflexivity].
    simpl. symmetry. apply existsb_exists. exists cc'. split.
    + now apply list_elem_of_In.
    + rewrite <- Hcc. apply existsb_pointwise. intros ic.
      unfold names_match. now rewrite Hname.
Qed.

Lemma names_injective (overrides : list Container.t) (c1 c2 : Container.t) :
  NoDup (override_names overrides) ->
  c1 ∈ overrides -> c2 ∈ overrides ->
  Container.Name c1 = Container.Name c2 -> c1 = c2.
Proof.
  unfold override_names.
  induction overrides as [|c overrides IH]; intros Hnd H1 H2 Hname.
  - inversion H1.
  - simpl in Hnd. apply NoDup_cons in Hnd as [Hc Hnd].
    apply elem_of_cons in H1 as [-> | H1];
      apply elem_of_cons in H2 as [-> | H2].
    + reflexivity.
    + exfalso. apply Hc. rewrite Hname.
      apply list_elem_of_In, in_map, list_elem_of_In, H2.
    + exfalso. apply Hc. rewrite <- Hname.
      apply list_elem_of_In, in_map, list_elem_of_In, H1.
    + now apply IH.
Qed.

Lemma last_override_unique (overrides : list Container.t)
    (cc : Container.t) :
  NoDup (override_names overrides) ->
  cc ∈ overrides ->
  last_override (Container.Name cc) overrides = Some cc.
Proof.
  intros Hnd Hin.
  destruct (last_override (Container.Name cc) overrides) as [c|] eqn:Hl.
  - destruct (last_override_Some _ _ _ Hl) as [Hc Hname].
    f_equal. now apply (names_injective overrides).
  - exfalso. now apply (last_override_None _ _ Hl cc Hin).
Qed.

(** X3: when the override containers of the entry have distinct names, the
    order in which the entry lists them does not matter: any permutation
    gives the same working copy and the same [found]. *)
Theorem X3_distinct_overrides_commute
    (overrides overrides' original : list Container.t) (found : bool)
    (Hperm : overrides ≡ₚ overrides')
    (Hdistinct : NoDup (override_names overrides)) :
  range_config overrides (original, found)
  = range_config overrides' (original, found).
Proof.
  assert (Hdistinct' : NoDup (override_names overrides'))
    by (unfold override_names in *; now rewrite <- Hperm).
  rewrite !range_config_overridden. f_equal.
  - apply map_ext. intros ic. unfold overridden.
    destruct (last_override (Container.Name ic) overrides) as [cc|] eqn:Hl.
    + destruct (last_override_Some _ _ _ Hl) as [Hin Hname].
      rewrite Hperm in Hin. rewrite <- Hname.
      now rewrite (last_override_unique overrides' cc Hdistinct' Hin).
    + rewrite last_override_absent; [reflexivity|].
      intros cc Hin. rewrite <- Hperm in Hin.
      exact (last_override_None _ _ Hl cc Hin).
  - f_equal.
    destruct (existsb _ overrides) eqn:H1; symmetry.
    + apply existsb_exists in H1 as (cc & Hin & Hcc).
      apply existsb_exists. exists cc. split; [|exact Hcc].
      apply list_elem_of_In. rewrite <- Hperm. now apply list_elem_of_In.
    + destruct (existsb _ overrides') eqn:H2; [|reflexivity].
      apply existsb_exists in H2 as (cc & Hin & Hcc).
      rewrite <- H1. symmetry. apply existsb_exists. exists cc.
      split; [|exact Hcc].
      apply list_elem_of_In. rewrite Hperm. now apply list_elem_of_In.
Qed.

(** ** The transport checks and the envelope *)

Lemma body_reaches_decode (r : Request.t) :
  body_of r <> "" ->
  Request.Header_Get r "Content-Type" = "application/json" ->
  reaches_decode r (body_of r).
Proof.
  unfold body_of, reaches_decode. intros Hbody Hct.
  destruct (Request.Body r) as [data|]; [now repeat split | congruence].
Qed.

Lemma reaches_decode_body (r : Request.t) (body : string) :
  reaches_decode r body -> body_of r = body.
Proof. intros (Hbody & _). unfold body_of. now rewrite Hbody. Qed.

Lemma serve_empty_body (E : Externals) (annotation : string) (r : Request.t) :
  body_of r = "" ->
  serve E annotation r = Returned (http_Error "empty body" 400).
Proof. unfold body_of, serve. intros ->. reflexivity. Qed.

Lemma serve_wrong_content_type (E : Externals) (annotation : string)
    (r : Request.t) :
  body_of r <> "" ->
  Request.Header_Get r "Content-Type" <> "application/json" ->
  serve E annotation r
  = Returned (http_Error "invalid Content-Type, expect `application/json`"
                415).
Proof.
  unfold body_of, serve. intros Hbody Hct.
  destruct (match Request.Body r with Some data => data | None => "" end)
    as [|a body]; [congruence|]. simpl.
  apply String.eqb_neq in Hct. now rewrite Hct.
Qed.

Lemma serve_decode_stage_outcome (E : Externals) (annotation : string)
    (r : Request.t) (body : string) :
  reaches_decode r body ->
  (exists reason, serve E annotation r = Panicked reason)
  \/ (exists review, serve E annotation r = Returned (Write review)).
Proof.
  intros Hreach. rewrite (serve_decode_stage E annotation r body Hreach).
  destruct (deserializer_Decode E body) as [ar [err|]].
  - right. eauto.
  - destruct (mutate E annotation ar) as [resp | reason]; [right | left];
      eauto.
Qed.

(** X4: [serve] answers with an [http.Error] exactly when the request
    fails a transport check: status 400 when the body is missing or empty,
    whatever the content type is, and status 415 when the body is there and
    the content type is not exactly [application/json].  A request that
    passes both checks never gets an [http.Error] from these lines. *)
Theorem X4_transport_checks
    (E : Externals) (annotation : string) (r : Request.t) :
  (body_of r = "" ->
   serve E annotation r = Returned (http_Error "empty body" 400))
  /\ (body_of r <> "" ->
      Request.Header_Get r "Content-Type" <> "application/json" ->
      serve E annotation r
      = Returned
          (http_Error "invalid Content-Type, expect `application/json`" 415))
  /\ (forall message code,
        serve E annotation r = Returned (http_Error message code) ->
        body_of r = ""
        \/ Request.Header_Get r "Content-Type" <> "application/json").
Proof.
  split; [apply serve_empty_body|]. split; [apply serve_wrong_content_type|].
  intros message code Hserve.
  destruct (decide (body_of r = "")) as [Hb | Hb]; [now left|]. right.
  intros Hct.
  destruct (serve_decode_stage_outcome E annotation r (body_of r)
              (body_reaches_decode r Hb Hct)) as [[reason H] | [review H]];
    rewrite H in Hserve; discriminate.
Qed.

(** X5: [serve] panics exactly when the request passes the transport
    checks and the envelope decodes without error but carries no request
    object; the panic is the nil dereference in [mutate]. *)
Theorem X5_serve_panics_only_without_request
    (E : Externals) (annotation : string) (r : Request.t) (reason : string) :
  serve E annotation r = Panicked reason
  <-> reason = nil_dereference
      /\ exists body ar,
           reaches_decode r body
           /\ deserializer_Decode E body = (ar, None)
           /\ AdmissionReview.Request ar = None.
Proof.
  split.
  - intros Hserve.
    destruct (decide (body_of r = "")) as [Hb | Hb].
    { rewrite (serve_empty_body E annotation r Hb) in Hserve. discriminate. }
    destruct (decide (Request.Header_Get r "Content-Type"
                      = "application/json")) as [Hct | Hct].
    2: { rewrite (serve_wrong_content_type E annotation r Hb Hct) in Hserve.
         discriminate. }
    pose proof (body_reaches_decode r Hb Hct) as Hreach.
    rewrite (serve_decode_stage E annotation r _ Hreach) in Hserve.
    destruct (deserializer_Decode E (body_of r)) as [ar [err|]] eqn:Hdec;
      [discriminate|].
    destruct (AdmissionReview.Request ar) as [req|] eqn:Hreq.
    + destruct (mutate_returns E annotation ar req Hreq) as [resp Hm].
      rewrite Hm in Hserve. discriminate.
    + assert (Hm : mutate E annotation ar = Panicked nil_dereference)
        by (unfold mutate; now rewrite Hreq).
      rewrite Hm in Hserve. injection Hserve as <-.
      split; [reflexivity|]. now exists (body_of r), ar.
  - intros (-> & body & ar & Hreach & Hdec & Hreq).
    rewrite (serve_decode_stage E annotation r body Hreach), Hdec.
    unfold mutate. now rewrite Hreq.
Qed.

Lemma mutate_consistent (E : Externals) (annotation : string)
    (ar : AdmissionReview.t) (resp : AdmissionResponse.t) :
  mutate E annotation ar = Returned resp ->
  AdmissionResponse.UID resp = "" /\ consistent_response resp.
Proof.
  unfold mutate, consistent_response.
  destruct (AdmissionReview.Request ar) as [req|]; [|discriminate].
  destruct (json_Unmarshal_Pod E _) as [pod | err].
  - destruct (negb _).
    + intros [= <-]. simpl. repeat split; try congruence; discriminate.
    + destruct (createPatch E annotation pod) as [patchBytes [err|]];
        intros [= <-]; simpl; repeat split; try congruence; try discriminate.
  - intros [= <-]. simpl. repeat split; try congruence; discriminate.
Qed.

Lemma set_UID_consistent (resp : AdmissionResponse.t) (uid : string) :
  consistent_response resp ->
  consistent_response (AdmissionResponse.set_UID resp uid).
Proof. unfold consistent_response. now destruct resp. Qed.

(** X6: whenever [serve] writes an envelope, the envelope carries a
    response and no request, and the response is consistent: it is allowed
    exactly when it has no status message; a patch type occurs only on an
    allowed response and is [JSONPatch]; patch bytes occur only together
    with the patch type. *)
Theorem X6_written_envelope_is_consistent
    (E : Externals) (annotation : string) (r : Request.t)
    (review : AdmissionReview.t)
    (Hserve : serve E annotation r = Returned (Write review)) :
  AdmissionReview.Request review = None
  /\ exists resp,
       AdmissionReview.Response review = Some resp
       /\ consistent_response resp.
Proof.
  destruct (decide (body_of r = "")) as [Hb | Hb].
  { rewrite (serve_empty_body E annotation r Hb) in Hserve. discriminate. }
  destruct (decide (Request.Header_Get r "Content-Type"
                    = "application/json")) as [Hct | Hct].
  2: { rewrite (serve_wrong_content_type E annotation r Hb Hct) in Hserve.
       discriminate. }
  pose proof (body_reaches_decode r Hb Hct) as Hreach.
  rewrite (serve_decode_stage E annotation r _ Hreach) in Hserve.
  destruct (deserializer_Decode E (body_of r)) as [ar [err|]].
  - injection Hserve as <-. split; [reflexivity|]. eexists.
    split; [reflexivity|].
    destruct (AdmissionReview.Request ar); [apply set_UID_consistent|];
      unfold consistent_response; simpl;
      repeat split; try congruence; discriminate.
  - destruct (mutate E annotation ar) as [resp | reason] eqn:Hm;
      [|discriminate].
    injection Hserve as <-. split; [reflexivity|]. eexists.
    split; [reflexivity|].
    destruct (mutate_consistent E annotation ar resp Hm) as [_ Hc].
    destruct (AdmissionReview.Request ar); [now apply set_UID_consistent|].
    exact Hc.
Qed.

(** X7: when the envelope fails to decode, [serve] does not evaluate the
    Pod at all: whatever the envelope holds, the response is not allowed,
    carries the text of the decode error and no patch, and its uid is the
    uid of the request object if the decoder left one. *)
Theorem X7_envelope_decode_failure
    (E : Externals) (annotation : string) (r : Request.t) (body : string)
    (ar : AdmissionReview.t) (err : error)
    (Hreach : reaches_decode r body)
    (Hdec : deserializer_Decode E body = (ar, Some err)) :
  serve E annotation r
  = Returned (Write
      {| AdmissionReview.Request := None;
         AdmissionReview.Response :=
           Some {| AdmissionResponse.UID :=
                     match AdmissionReview.Request ar with
                     | Some req => AdmissionRequest.UID req
                     | None => ""
                     end;
                   AdmissionResponse.Allowed := false;
                   AdmissionResponse.Result :=
                     Some {| Status.Message := Error err |};
                   AdmissionResponse.Patch := "";
                   AdmissionResponse.PatchType := None |} |}).
Proof.
  rewrite (serve_decode_stage E annotation r body Hreach), Hdec.
  now destruct (AdmissionReview.Request ar).
Qed.

(** X8: when the envelope decodes and the raw object in it does not decode
    as a Pod, the namespace policy and the annotation are never looked at:
    the response echoes the uid, is not allowed, and carries the text of
    the decode error and no patch. *)
Theorem X8_object_decode_failure
    (E : Externals) (annotation : string) (r : Request.t) (body : string)
    (ar : AdmissionReview.t) (req : AdmissionRequest.t) (err : error)
    (Hreach : reaches_decode r body)
    (Hdec : deserializer_Decode E body = (ar, None))
    (Hreq : AdmissionReview.Request ar = Some req)
    (Hpod : json_Unmarshal_Pod E
              (RawExtension.Raw (AdmissionRequest.Object req)) = inr err) :
  serve E annotation r
  = Returned (Write
      {| AdmissionReview.Request := None;
         AdmissionReview.Response :=
           Some {| AdmissionResponse.UID := AdmissionRequest.UID req;
                   AdmissionResponse.Allowed := false;
                   AdmissionResponse.Result :=
                     Some {| Status.Message := Error err |};
                   AdmissionResponse.Patch := "";
                   AdmissionResponse.PatchType := None |} |}).
Proof.
  rewrite (serve_decode_stage E annotation r body Hreach), Hdec.
  unfold mutate. now rewrite Hreq, Hpod.
Qed.

(** X9: [mutate] reads nothing of the request but the raw object: the
    kind, namespace, name, operation and uid of the request do not
    influence its response.  A request for another kind or operation is
    handled like the creation of a Pod, and the namespace that the policy
    checks is the one inside the object. *)
Theorem X9_mutate_reads_only_the_raw_object
    (E : Externals) (annotation : string) (ar ar' : AdmissionReview.t)
    (req req' : AdmissionRequest.t)
    (Hreq : AdmissionReview.Request ar = Some req)
    (Hreq' : AdmissionReview.Request ar' = Some req')
    (Hraw : RawExtension.Raw (AdmissionRequest.Object req)
            = RawExtension.Raw (AdmissionRequest.Object req')) :
  mutate E annotation ar = mutate E annotation ar'.
Proof. unfold mutate. now rewrite Hreq, Hreq', Hraw. Qed.

(** ** [createPatch] *)

Lemma encode_patch_error_has_no_bytes (E : Externals)
    (pod initializedPod : Pod.t) (err : error) :
  (encode_patch E pod initializedPod).2 = Some err ->
  (encode_patch E pod initializedPod).1 = "".
Proof.
  unfold encode_patch.
  destruct (json_Marshal_Pod E pod) as [oldData|]; [|reflexivity].
  destruct (json_Marshal_Pod E initializedPod) as [newData|]; [|reflexivity].
  destruct (jsonpatch_CreatePatch E oldData newData) as [patch|];
    [|reflexivity].
  destruct (json_Marshal_patch E patch); [discriminate | reflexivity].
Qed.

(** X10: [createPatch] never returns patch bytes together with an error:
    on each of its error returns the bytes are empty. *)
Theorem X10_createPatch_error_has_no_bytes
    (E : Externals) (annotation : string) (pod : Pod.t) (err : error)
    (Herr : (createPatch E annotation pod).2 = Some err) :
  (createPatch E annotation pod).1 = "".
Proof.
  revert Herr. unfold createPatch; cbv zeta.
  destruct (Pod.GetAnnotations pod !! _) as [v|]; [|reflexivity].
  destruct (json_Unmarshal_config E v) as [c|]; [|reflexivity].
  destruct (range_Pods _ _ _) as [cpod [|]]; [|reflexivity]. simpl.
  unfold override_resources.
  destruct (range_config _ _) as [containers [|]]; [|reflexivity]. simpl.
  apply encode_patch_error_has_no_bytes.
Qed.

(** X11: the first entry of the Pod's name shadows the later ones: when
    none of its containers has the name of a container of the Pod, the
    result is no mutation, whatever the entries after it are, also when a
    later entry of the same name would match. *)
Theorem X11_first_entry_shadows_later_entries
    (E : Externals) (annotation : string) (pod : Pod.t) (v : string)
    (c : config) (before after : list Pod.t) (cpod : Pod.t)
    (Hv : Pod.GetAnnotations pod !! (annotation +:+ ".podDefinition") = Some v)
    (Hc : json_Unmarshal_config E v = inl c)
    (Hsplit : Pods c = before ++ cpod :: after)
    (Hbefore : forall q, q ∈ before -> Pod.Name q <> Pod.Name pod)
    (Hname : Pod.Name cpod = Pod.Name pod)
    (Hno : forall cc ic,
        cc ∈ PodSpec.Containers (Pod.Spec cpod) ->
        ic ∈ PodSpec.Containers (Pod.Spec pod) ->
        Container.Name cc <> Container.Name ic) :
  createPatch E annotation pod = ("", None).
Proof.
  apply createPatch_nothing. right. right. exists v, c, cpod.
  repeat split; try assumption.
  rewrite Hsplit. now apply range_Pods_first.
Qed.

Lemma set_Containers_same (pod : Pod.t) :
  Pod.set_Containers pod (PodSpec.Containers (Pod.Spec pod)) = pod.
Proof. now destruct pod as [meta [containers]]. Qed.

(** X12: [found] records that a name matched, not that anything changed:
    when every container of a matching name already has the resources of
    its override, the working copy equals the Pod, and [createPatch] still
    goes on to diff the Pod against itself instead of returning no
    mutation. *)
Theorem X12_unchanged_match_is_still_patched
    (E : Externals) (pod cpod : Pod.t)
    (Hmatch : exists cc ic,
        cc ∈ PodSpec.Containers (Pod.Spec cpod)
        /\ ic ∈ PodSpec.Containers (Pod.Spec pod)
        /\ Container.Name cc = Container.Name ic)
    (Hsame : forall ic cc,
        ic ∈ PodSpec.Containers (Pod.Spec pod) ->
        last_override (Container.Name ic)
          (PodSpec.Containers (Pod.Spec cpod)) = Some cc ->
        Container.Resources cc = Container.Resources ic) :
  range_config (PodSpec.Containers (Pod.Spec cpod))
    (PodSpec.Containers (Pod.Spec pod), false)
  = (PodSpec.Containers (Pod.Spec pod), true)
  /\ override_resources E pod (Pod.DeepCopy pod) cpod
     = encode_patch E pod pod.
Proof.
  assert (Hmap : map (overridden (PodSpec.Containers (Pod.Spec cpod)))
                   (PodSpec.Containers (Pod.Spec pod))
                 = PodSpec.Containers (Pod.Spec pod)).
  { rewrite <- (map_id (PodSpec.Containers (Pod.Spec pod))) at 2.
    apply map_ext_in. intros ic Hic. unfold overridden.
    destruct (last_override _ _) as [cc|] eqn:Hl; [|reflexivity].
    rewrite (Hsame ic cc (proj2 (list_elem_of_In _ _) Hic) Hl).
    now destruct ic. }
  apply existsb_match_iff in Hmatch. split.
  - rewrite range_config_overridden, Hmap. simpl. now rewrite Hmatch.
  - rewrite override_resources_spec. unfold Pod.DeepCopy. cbv zeta.
    now rewrite Hmatch, Hmap, set_Containers_same.
Qed.

(** X13: the empty cases of [createPatch]: with the annotation present and
    decoded, an override specification without entries, a Pod without
    containers, and a first entry of the Pod's name without containers all
    give no mutation and no error. *)
Theorem X13_createPatch_empty_inputs
    (E : Externals) (annotation : string) (pod : Pod.t) (v : string)
    (c : config)
    (Hv : Pod.GetAnnotations pod !! (annotation +:+ ".podDefinition") = Some v)
    (Hc : json_Unmarshal_config E v = inl c) :
  (Pods c = [] -> createPatch E annotation pod = ("", None))
  /\ (PodSpec.Containers (Pod.Spec pod) = [] ->
      createPatch E annotation pod = ("", None))
  /\ (forall cpod,
        range_Pods (Pod.Name pod) (Pods c) Pod.zero = (cpod, true) ->
        PodSpec.Containers (Pod.Spec cpod) = [] ->
        createPatch E annotation pod = ("", None)).
Proof.
  split; [|split].
  - intros Hempty. apply (createPatch_no_entry E annotation pod v c Hv Hc).
    rewrite Hempty. intros p Hp. inversion Hp.
  - intros Hempty.
    destruct (range_Pods (Pod.Name pod) (Pods c) Pod.zero)
      as [cpod [|]] eqn:Hr.
    + apply createPatch_nothing. right. right. exists v, c, cpod.
      repeat split; try assumption.
      intros cc ic _ Hic. rewrite Hempty in Hic. inversion Hic.
    + unfold createPatch; cbv zeta. now rewrite Hv, Hc, Hr.
  - intros cpod Hr Hempty. apply createPatch_nothing. right. right.
    exists v, c, cpod. repeat split; try assumption.
    intros cc ic Hcc. rewrite Hempty in Hcc. inversion Hcc.
Qed.

Lemma append_length (a b : string) :
  String.length (a +:+ b) = String.length a + String.length b.
Proof. induction a as [|x a IH]; simpl; [reflexivity | now rewrite IH]. Qed.

Lemma append_suffix_differs (a b : string) : b <> "" -> a <> a +:+ b.
Proof.
  intros Hb Heq. apply (f_equal String.length) in Heq.
  rewrite append_length in Heq. destruct b; [congruence|]. simpl in Heq. lia.
Qed.

(** X14: the value of the [annotation] flag is a prefix of the key and not
    the key: a Pod whose only annotation is under the flag value itself,
    without the suffix [.podDefinition], is not mutated, whatever the
    annotation holds. *)
Theorem X14_flag_value_is_not_the_key
    (E : Externals) (annotation : string) (pod : Pod.t) (v : string)
    (Hbare : Pod.GetAnnotations pod = {[ annotation := v ]}) :
  createPatch E annotation pod = ("", None).
Proof.
  apply createPatch_absent. rewrite Hbare.
  apply lookup_singleton_ne. now apply append_suffix_differs.
Qed.

(** X15: [mutate] attaches patch bytes only to a Pod that the annotation
    names: when the response carries patch bytes, the Pod's namespace is
    not excluded, the annotation is present and decodes, the override
    specification has a first entry of the Pod's name, a container of that
    entry has the name of a container of the Pod, and the bytes are those
    of the patch from the Pod to its working copy. *)
Theorem X15_patch_bytes_only_for_a_named_pod
    (E : Externals) (annotation : string) (ar : AdmissionReview.t)
    (req : AdmissionRequest.t) (pod : Pod.t) (resp : AdmissionResponse.t)
    (Hreq : AdmissionReview.Request ar = Some req)
    (Hpod : json_Unmarshal_Pod E
              (RawExtension.Raw (AdmissionRequest.Object req)) = inl pod)
    (Hresp : mutate E annotation ar = Returned resp)
    (Hpatch : AdmissionResponse.Patch resp <> "") :
  (Pod.Namespace pod ∉ ignoredNamespaces)
  /\ exists v c before cpod after,
       Pod.GetAnnotations pod !! (annotation +:+ ".podDefinition") = Some v
       /\ json_Unmarshal_config E v = inl c
       /\ Pods c = before ++ cpod :: after
       /\ Pod.Name cpod = Pod.Name pod
       /\ (forall q, q ∈ before -> Pod.Name q <> Pod.Name pod)
       /\ (exists cc ic,
             cc ∈ PodSpec.Containers (Pod.Spec cpod)
             /\ ic ∈ PodSpec.Containers (Pod.Spec pod)
             /\ Container.Name cc = Container.Name ic)
       /\ encode_patch E pod
            (Pod.set_Containers pod
               (map (overridden (PodSpec.Containers (Pod.Spec cpod)))
                  (PodSpec.Containers (Pod.Spec pod))))
          = (AdmissionResponse.Patch resp, None).
Proof.
  destruct (decide (Pod.Namespace pod ∈ ignoredNamespaces)) as [Hin | Hns].
  { rewrite (mutate_excluded E annotation ar req pod Hreq Hpod Hin) in Hresp.
    injection Hresp as <-. now simpl in Hpatch. }
  split; [assumption|].
  rewrite (mutate_eligible E annotation ar req pod Hreq Hpod Hns) in Hresp.
  destruct (createPatch E annotation pod) as [patchBytes [err|]] eqn:Hcp;
    injection Hresp as <-; simpl in Hpatch; [congruence|].
  revert Hcp. unfold createPatch; cbv zeta.
  destruct (Pod.GetAnnotations pod !! _) as [v|] eqn:Hv; [|congruence].
  destruct (json_Unmarshal_config E v) as [c|] eqn:Hc; [|congruence].
  destruct (range_Pods _ _ _) as [cpod [|]] eqn:Hr; simpl; [|congruence].
  destruct (range_Pods_found _ _ _ _ Hr) as (before & after & Hs & Hn & Hb).
  rewrite override_resources_spec. unfold Pod.DeepCopy. cbv zeta.
  destruct (existsb _ _) eqn:Hex; [|congruence].
  intros Henc. exists v, c, before, cpod, after.
  repeat split; try assumption.
  now apply existsb_match_iff.
Qed.

(** ** The response writer *)

Lemma write_review_encode_failure
    (marshal : AdmissionReview.t -> string + error)
    (w_Write : string -> option error)
    (review : AdmissionReview.t) (err : error) :
  marshal review = inr err ->
  write_review marshal w_Write review
  = [call_http_Error ("could not encode response: " +:+ Error err) 500;
     call_Write ""]
    ++ match w_Write "" with
       | Some werr =>
           [call_http_Error ("could not write response: " +:+ Error werr)
              500]
       | None => []
       end.
Proof.
  intros Hmarshal. unfold write_review. rewrite Hmarshal.
  now destruct (w_Write "").
Qed.

Lemma write_review_one_Write
    (marshal : AdmissionReview.t -> string + error)
    (w_Write : string -> option error) (review : AdmissionReview.t) :
  length (List.filter is_Write (write_review marshal w_Write review)) = 1.
Proof.
  unfold write_review.
  destruct (marshal review) as [resp | err];
    destruct (w_Write _) as [werr|]; reflexivity.
Qed.

(** X16: in every run of [serve] that does not panic, a request that fails
    a transport check gets one [http.Error] and nothing else, and a request
    that passes them gets exactly one call of [w.Write].  What is written
    is the marshalled review; when the review cannot be marshalled, status
    500 is reported and, for lack of a [return], [w.Write] is still
    called, with no bytes. *)
Theorem X16_one_write_per_decoded_request
    (E : Externals) (annotation : string)
    (marshal : AdmissionReview.t -> string + error)
    (w_Write : string -> option error) (r : Request.t)
    (calls : list writer_call)
    (Hcalls : serve_calls E annotation marshal w_Write r = Returned calls) :
  ((body_of r = ""
    \/ Request.Header_Get r "Content-Type" <> "application/json") ->
   exists message code, calls = [call_http_Error message code])
  /\ (body_of r <> "" ->
      Request.Header_Get r "Content-Type" = "application/json" ->
      length (List.filter is_Write calls) = 1
      /\ exists review,
           serve E annotation r = Returned (Write review)
           /\ (forall data, marshal review = inl data ->
                 call_Write data ∈ calls)
           /\ (forall err, marshal review = inr err ->
                 exists rest,
                   calls
                   = [call_http_Error
                        ("could not encode response: " +:+ Error err) 500;
                      call_Write ""] ++ rest)).
Proof.
  unfold serve_calls in Hcalls. split.
  - intros Hfail.
    assert (Hserve : exists message code,
               serve E annotation r = Returned (http_Error message code)).
    { destruct (decide (body_of r = "")) as [Hb | Hb].
      - rewrite (serve_empty_body E annotation r Hb). eauto.
      - destruct Hfail as [Hb' | Hct]; [contradiction|].
        rewrite (serve_wrong_content_type E annotation r Hb Hct). eauto. }
    destruct Hserve as (message & code & Hserve). rewrite Hserve in Hcalls.
    injection Hcalls as <-. eauto.
  - intros Hb Hct.
    destruct (serve_decode_stage_outcome E annotation r (body_of r)
                (body_reaches_decode r Hb Hct)) as [[reason H] | [review H]];
      rewrite H in Hcalls; [discriminate|].
    injection Hcalls as <-.
    split; [apply write_review_one_Write|].
    exists review. split; [exact H|]. split.
    + intros data Hm. unfold write_review. rewrite Hm.
      destruct (w_Write data); simpl; apply elem_of_cons; now left.
    + intros err Hm. eexists.
      apply (write_review_encode_failure marshal w_Write review err Hm).
Qed.

(** ** The further properties at concrete requests *)

Import Scenario.

Lemma X2_witness :
  late ∈ [late]
  /\ range_config ([] ++ early :: [late]) (containers, false)
     = range_config ([] ++ [late]) (containers, false).
Proof.
  assert (Hin : late ∈ [late]) by (apply elem_of_cons; now left).
  split; [exact Hin|].
  apply (X2_later_override_supersedes [] [late] containers early late false
           Hin eq_refl).
Defined.

Lemma X3_witness :
  NoDup (override_names [late; exporter])
  /\ range_config [late; exporter] (containers, false)
     = range_config [exporter; late] (containers, false).
Proof.
  assert (Hnd : NoDup (override_names [late; exporter])).
  { unfold override_names. simpl. apply NoDup_cons. split.
    - not_in_literal.
    - apply NoDup_singleton. }
  split; [exact Hnd|].
  apply (X3_distinct_overrides_commute [late; exporter] [exporter; late]
           containers false); [apply perm_swap | exact Hnd].
Defined.

Lemma X6_witness :
  serve E defaultAnnotation (post (review_body "705ab4f5" readme_pod))
  = Returned (Write readme_review)
  /\ AdmissionReview.Request readme_review = None
  /\ exists resp,
       AdmissionReview.Response readme_review = Some resp
       /\ consistent_response resp.
Proof.
  assert (Hserve : serve E defaultAnnotation
                     (post (review_body "705ab4f5" readme_pod))
                   = Returned (Write readme_review))
    by (vm_compute; reflexivity).
  split; [exact Hserve|].
  exact (X6_written_envelope_is_consistent E defaultAnnotation _ _ Hserve).
Defined.

Lemma X7_witness :
  deserializer_Decode E garbled_body
  = (AdmissionReview.zero, Some syntax_error)
  /\ serve E defaultAnnotation (post garbled_body)
     = Returned (Write
         {| AdmissionReview.Request := None;
            AdmissionReview.Response :=
              Some {| AdmissionResponse.UID := "";
                      AdmissionResponse.Allowed := false;
                      AdmissionResponse.Result :=
                        Some {| Status.Message := Error syntax_error |};
                      AdmissionResponse.Patch := "";
                      AdmissionResponse.PatchType := None |} |}).
Proof.
  assert (Hdec : deserializer_Decode E garbled_body
                 = (AdmissionReview.zero, Some syntax_error))
    by (vm_compute; reflexivity).
  split; [exact Hdec|].
  apply (X7_envelope_decode_failure E defaultAnnotation (post garbled_body)
           garbled_body AdmissionReview.zero syntax_error); [|exact Hdec].
  split; [reflexivity|]. split; [|vm_compute; reflexivity].
  intros H. vm_compute in H. discriminate H.
Defined.

Lemma X8_witness :
  deserializer_Decode E string_object_body
  = (AdmissionReview.mk (Some string_object_request) None, None)
  /\ json_Unmarshal_Pod E
       (RawExtension.Raw (AdmissionRequest.Object string_object_request))
     = inr (type_error (JStr "nope") "v1.Pod")
  /\ serve E defaultAnnotation (post string_object_body)
     = Returned (Write
         {| AdmissionReview.Request := None;
            AdmissionReview.Response :=
              Some {| AdmissionResponse.UID := "77aa";
                      AdmissionResponse.Allowed := false;
                      AdmissionResponse.Result :=
                        Some {| Status.Message :=
                                  Error (type_error (JStr "nope") "v1.Pod") |};
                      AdmissionResponse.Patch := "";
                      AdmissionResponse.PatchType := None |} |}).
Proof.
  assert (Hdec : deserializer_Decode E string_object_body
                 = (AdmissionReview.mk (Some string_object_request) None,
                    None)) by (vm_compute; reflexivity).
  assert (Hpod : json_Unmarshal_Pod E
                   (RawExtension.Raw
                      (AdmissionRequest.Object string_object_request))
                 = inr (type_error (JStr "nope") "v1.Pod"))
    by (vm_compute; reflexivity).
  split; [exact Hdec|]. split; [exact Hpod|].
  apply (X8_object_decode_failure E defaultAnnotation
           (post string_object_body) string_object_body
           (AdmissionReview.mk (Some string_object_request) None)
           string_object_request (type_error (JStr "nope") "v1.Pod"));
    [|exact Hdec | reflexivity | exact Hpod].
  split; [reflexivity|]. split; [discriminate | vm_compute; reflexivity].
Defined.

Lemma X9_witness :
  AdmissionRequest.Operation other_request = "DELETE"
  /\ AdmissionRequest.Namespace other_request = "kube-system"
  /\ mutate E defaultAnnotation (review_of "705ab4f5" readme_pod)
     = mutate E defaultAnnotation
         (AdmissionReview.mk (Some other_request) None).
Proof.
  split; [reflexivity|]. split; [reflexivity|].
  apply (X9_mutate_reads_only_the_raw_object E defaultAnnotation _ _
           (request_of "705ab4f5" readme_pod) other_request);
    reflexivity.
Defined.

Lemma X10_witness :
  (createPatch E defaultAnnotation malformed_pod).2 = Some syntax_error
  /\ (createPatch E defaultAnnotation malformed_pod).1 = "".
Proof.
  assert (Herr : (createPatch E defaultAnnotation malformed_pod).2
                 = Some syntax_error) by (vm_compute; reflexivity).
  split; [exact Herr|].
  exact (X10_createPatch_error_has_no_bytes E defaultAnnotation
           malformed_pod syntax_error Herr).
Defined.

Lemma X11_witness :
  json_Unmarshal_config E shadow_annotation
  = inl (mkConfig [shadow_first; shadow_second])
  /\ createPatch E defaultAnnotation shadowed_pod = ("", None).
Proof.
  assert (Hc : json_Unmarshal_config E shadow_annotation
               = inl (mkConfig [shadow_first; shadow_second]))
    by (vm_compute; reflexivity).
  split; [exact Hc|].
  apply (X11_first_entry_shadows_later_entries E defaultAnnotation
           shadowed_pod shadow_annotation
           (mkConfig [shadow_first; shadow_second])
           [] [shadow_second] shadow_first).
  - vm_compute. reflexivity.
  - exact Hc.
  - reflexivity.
  - intros q Hq. inversion Hq.
  - reflexivity.
  - intros cc ic Hcc Hic. simpl in Hcc, Hic.
    apply elem_of_cons in Hcc as [-> | Hcc]; [|inversion Hcc].
    apply elem_of_cons in Hic as [-> | Hic]; [|inversion Hic].
    discriminate.
Defined.

Lemma X12_witness :
  range_config (PodSpec.Containers (Pod.Spec settled_entry))
    (PodSpec.Containers (Pod.Spec settled_pod), false)
  = (PodSpec.Containers (Pod.Spec settled_pod), true)
  /\ override_resources E settled_pod (Pod.DeepCopy settled_pod)
       settled_entry
     = encode_patch E settled_pod settled_pod.
Proof.
  apply (X12_unchanged_match_is_still_patched E settled_pod settled_entry).
  - eexists. eexists. split; [apply elem_of_cons; left; reflexivity|].
    split; [apply elem_of_cons; left; reflexivity | reflexivity].
  - intros ic cc Hic Hl. simpl in Hic.
    apply elem_of_cons in Hic as [-> | Hic]; [|inversion Hic].
    vm_compute in Hl. injection Hl as <-. vm_compute. reflexivity.
Defined.

Lemma X13_witness :
  json_Unmarshal_config E (text "{'Pods':[]}") = inl (mkConfig [])
  /\ createPatch E defaultAnnotation no_entries_pod = ("", None).
Proof.
  assert (Hc : json_Unmarshal_config E (text "{'Pods':[]}")
               = inl (mkConfig [])) by (vm_compute; reflexivity).
  split; [exact Hc|].
  apply (proj1 (X13_createPatch_empty_inputs E defaultAnnotation
                  no_entries_pod (text "{'Pods':[]}") (mkConfig [])
                  ltac:(vm_compute; reflexivity) Hc)).
  reflexivity.
Defined.

Lemma X14_witness :
  Pod.GetAnnotations bare_key_pod = {[ defaultAnnotation := solace_annotation ]}
  /\ createPatch E defaultAnnotation bare_key_pod = ("", None).
Proof.
  split; [reflexivity|].
  apply (X14_flag_value_is_not_the_key E defaultAnnotation bare_key_pod
           solace_annotation).
  reflexivity.
Defined.

Lemma X15_witness :
  mutate E defaultAnnotation (review_of "705ab4f5" readme_pod)
  = Returned (readme_response "")
  /\ (Pod.Namespace readme_pod ∉ ignoredNamespaces).
Proof.
  assert (Hresp : mutate E defaultAnnotation (review_of "705ab4f5" readme_pod)
                  = Returned (readme_response ""))
    by (vm_compute; reflexivity).
  split; [exact Hresp|].
  apply (X15_patch_bytes_only_for_a_named_pod E defaultAnnotation
           (review_of "705ab4f5" readme_pod)
           (request_of "705ab4f5" readme_pod) readme_pod
           (readme_response "")).
  - reflexivity.
  - vm_compute. reflexivity.
  - exact Hresp.
  - vm_compute. discriminate.
Defined.

Lemma X16_witness :
  serve_calls E defaultAnnotation failing_marshal writes
    (post (review_body "705ab4f5" readme_pod))
  = Returned
      [call_http_Error "could not encode response: json: unsupported value"
         500;
       call_Write ""]
  /\ length (List.filter is_Write
               [call_http_Error
                  "could not encode response: json: unsupported value" 500;
                call_Write ""]) = 1.
Proof.
  assert (Hcalls : serve_calls E defaultAnnotation failing_marshal writes
                     (post (review_body "705ab4f5" readme_pod))
                   = Returned
                       [call_http_Error
                          "could not encode response: json: unsupported value"
                          500;
                        call_Write ""]) by (vm_compute; reflexivity).
  split; [exact Hcalls|].
  apply (proj2 (X16_one_write_per_decoded_request E defaultAnnotation
                  failing_marshal writes _ _ Hcalls)).
  - intros H. vm_compute in H. discriminate H.
  - vm_compute. reflexivity.
Defined.
